(** * color_pccs: the colour catalog, the flashcard quiz and the API settings

    A shallow embedding of [src/App.jsx] and of the settings helper of
    [src/SeasonalColorAnalysis.jsx], followed by the properties proved
    about them.

    Conventions.
    - JavaScript numbers that the program only ever uses as small integers
      (catalog values, score, streak) are [Z]; array indices are [nat].
    - JavaScript strings are [string]s of bytes (UTF-8), so the Chinese
      texts of the source appear as they are.
    - [undefined] is [None] wherever a value may be missing.
    - A function that may throw returns a [completion]. *)

From Stdlib Require Import ZArith QArith List String Ascii Bool Lia.
From Stdlib Require Import Permutation DecimalString.
Import ListNotations.

Set Warnings "-register-all".

Local Open Scope Z_scope.
Local Open Scope list_scope.
Local Open Scope string_scope.

(* ================================================================= *)
(** ** JavaScript values                                              *)
(* ================================================================= *)

Module Js.

(** The kinds of exception the modelled code can raise, with the message
    the [Error] object carries. *)
Inductive error : Type :=
| SyntaxError (message : string)
| TypeError (message : string)
| Error (message : string).

Definition message (e : error) : string :=
  match e with
  | SyntaxError m | TypeError m | Error m => m
  end.

(** The outcome of running a piece of synchronous code. *)
Inductive completion (A : Type) : Type :=
| Normal (a : A)
| Throw (e : error).
Arguments Normal {A} a.
Arguments Throw {A} e.

Definition bind {A B} (c : completion A) (k : A -> completion B) : completion B :=
  match c with
  | Normal a => k a
  | Throw e => Throw e
  end.

Notation "x <- c ;; k" := (bind c (fun x => k))
  (at level 61, c at next level, right associativity).

(** [String(n)] for an integer-valued number below 1e21: plain decimal. *)
Definition Number_toString (z : Z) : string :=
  NilZero.string_of_int (Z.to_int z).

(** The double quote character and the one-character string holding it. *)
Definition dquote : ascii := "034"%char.
Definition backslash : ascii := "092"%char.

(** Values produced by [JSON.parse].  A number is kept as the exact decimal
    it was written as, [mantissa * 10 ^ exp10]. *)
Inductive json : Type :=
| JNull
| JBool (b : bool)
| JNum (mantissa exp10 : Z)
| JStr (s : string)
| JArr (elems : list json)
| JObj (members : list (string * json)).

Definition nonempty (s : string) : bool :=
  match s with
  | EmptyString => false
  | String _ _ => true
  end.

(** Does the decimal [m * 10 ^ e] round to a non-zero double?  Everything
    at or below half the least subnormal, 2^-1075, rounds to zero. *)
Definition Number_nonzero (m e : Z) : bool :=
  if (m =? 0)%Z then false
  else if (0 <=? e)%Z then true
  else (10 ^ (- e) <? Z.abs m * 2 ^ 1075)%Z.

(** ToBoolean. *)
Definition truthy (v : json) : bool :=
  match v with
  | JNull => false
  | JBool b => b
  | JNum m e => Number_nonzero m e
  | JStr s => nonempty s
  | JArr _ | JObj _ => true
  end.

(** ToBoolean of a value that may be [undefined]. *)
Definition truthy_opt (v : option json) : bool :=
  match v with
  | Some j => truthy j
  | None => false
  end.

(** [a || b] where [a] is a string or [undefined] and [b] a string. *)
Definition or_string (a : option string) (b : string) : string :=
  match a with
  | Some s => if nonempty s then s else b
  | None => b
  end.

(** [a || b] where [a] is any value or [undefined] and [b] a string. *)
Definition or_value (a : option json) (b : string) : json :=
  match a with
  | Some v => if truthy v then v else JStr b
  | None => JStr b
  end.

(** The value of the last member named [k]: [JSON.parse] lets a later
    duplicate overwrite an earlier one. *)
Fixpoint lookup (k : string) (members : list (string * json)) : option json :=
  match members with
  | [] => None
  | (k', v) :: rest =>
      match lookup k rest with
      | Some v' => Some v'
      | None => if String.eqb k k' then Some v else None
      end
  end.

(** [v.k] for a property name [k] that no built-in prototype defines
    (the program reads [baseUrl], [apiKey], [model], [error], [message],
    [choices], [content]).  Reading a property of [null] throws; the
    message is worded as V8 words it, and nothing below depends on it. *)
Definition get (v : json) (k : string) : completion (option json) :=
  match v with
  | JNull => Throw (TypeError ("Cannot read properties of null (reading '" ++ k ++ "')"))
  | JObj members => Normal (lookup k members)
  | _ => Normal None
  end.

(** [v?.k]: [undefined] when [v] is [undefined] or [null]. *)
Definition get_opt (v : option json) (k : string) : option json :=
  match v with
  | None | Some JNull => None
  | Some (JObj members) => lookup k members
  | Some _ => None
  end.

(** [v?.[0]]. The first character of a non-empty string stands for
    itself; only its being a string matters to the callers. *)
Definition index0_opt (v : option json) : option json :=
  match v with
  | None | Some JNull => None
  | Some (JArr elems) => hd_error elems
  | Some (JObj members) => lookup "0" members
  | Some (JStr (String c _)) => Some (JStr (String c EmptyString))
  | Some _ => None
  end.

End Js.

(* ================================================================= *)
(** ** JSON.parse                                                     *)
(* ================================================================= *)

Module JSON.
Import Js.

(** Result of a parsing function: the value read and the rest of the
    text, a syntax error, or recursion budget exhausted. *)
Inductive parsed (A : Type) : Type :=
| Parsed (a : A) (rest : string)
| Malformed
| OutOfFuel.
Arguments Parsed {A} a rest.
Arguments Malformed {A}.
Arguments OutOfFuel {A}.

Definition pmap {A B} (f : A -> B) (p : parsed A) : parsed B :=
  match p with
  | Parsed a rest => Parsed (f a) rest
  | Malformed => Malformed
  | OutOfFuel => OutOfFuel
  end.

Definition is_ws (c : ascii) : bool :=
  let n := N_of_ascii c in
  ((n =? 32) || (n =? 9) || (n =? 10) || (n =? 13))%N.

Fixpoint skip_ws (s : string) : string :=
  match s with
  | String c r => if is_ws c then skip_ws r else s
  | EmptyString => s
  end.

Definition digit (c : ascii) : option Z :=
  let n := N_of_ascii c in
  if ((48 <=? n) && (n <=? 57))%N then Some (Z.of_N n - 48) else None.

Definition hex_digit (c : ascii) : option N :=
  let n := N_of_ascii c in
  if ((48 <=? n) && (n <=? 57))%N then Some (n - 48)%N
  else if ((97 <=? n) && (n <=? 102))%N then Some (n - 87)%N
  else if ((65 <=? n) && (n <=? 70))%N then Some (n - 55)%N
  else None.

Definition hex4 (a b c d : ascii) : option N :=
  match hex_digit a, hex_digit b, hex_digit c, hex_digit d with
  | Some x, Some y, Some z, Some w => Some (((x * 16 + y) * 16 + z) * 16 + w)%N
  | _, _, _, _ => None
  end.

(** The bytes of a code point; an unpaired surrogate is written like any
    other three-byte code point. *)
Definition utf8 (cp : N) : string :=
  let byte n := ascii_of_N n in
  (if cp <? 128 then String (byte cp) EmptyString
   else if cp <? 2048 then
     String (byte (192 + cp / 64)) (String (byte (128 + cp mod 64)) EmptyString)
   else if cp <? 65536 then
     String (byte (224 + cp / 4096))
       (String (byte (128 + (cp / 64) mod 64))
          (String (byte (128 + cp mod 64)) EmptyString))
   else
     String (byte (240 + cp / 262144))
       (String (byte (128 + (cp / 4096) mod 64))
          (String (byte (128 + (cp / 64) mod 64))
             (String (byte (128 + cp mod 64)) EmptyString))))%N.

Definition is_high_surrogate (u : N) : bool := ((55296 <=? u) && (u <=? 56319))%N.
Definition is_low_surrogate (u : N) : bool := ((56320 <=? u) && (u <=? 57343))%N.

Definition simple_escape (e : ascii) : option ascii :=
  let n := N_of_ascii e in
  if (n =? 34)%N then Some dquote
  else if (n =? 92)%N then Some backslash
  else if (n =? 47)%N then Some "/"%char
  else if (n =? 98)%N then Some "008"%char
  else if (n =? 102)%N then Some "012"%char
  else if (n =? 110)%N then Some "010"%char
  else if (n =? 114)%N then Some "013"%char
  else if (n =? 116)%N then Some "009"%char
  else None.

(** The characters of a string literal after its opening quote, up to and
    including the closing quote. *)
Fixpoint string_body (s : string) : parsed string :=
  match s with
  | EmptyString => Malformed
  | String c r =>
      if Ascii.eqb c dquote then Parsed EmptyString r
      else if Ascii.eqb c backslash then
        match r with
        | EmptyString => Malformed
        | String e r1 =>
            match simple_escape e with
            | Some ch => pmap (String ch) (string_body r1)
            | None =>
                if Ascii.eqb e "u" then
                  match r1 with
                  | String h1 (String h2 (String h3 (String h4 r2))) =>
                      match hex4 h1 h2 h3 h4 with
                      | None => Malformed
                      | Some u =>
                          match r2 with
                          | String b (String u2 (String l1 (String l2 (String l3 (String l4 r3))))) =>
                              match hex4 l1 l2 l3 l4 with
                              | Some lo =>
                                  if is_high_surrogate u && Ascii.eqb b backslash
                                     && Ascii.eqb u2 "u" && is_low_surrogate lo
                                  then pmap (String.append (utf8 (65536 + (u - 55296) * 1024 + (lo - 56320))%N))
                                            (string_body r3)
                                  else pmap (String.append (utf8 u)) (string_body r2)
                              | None => pmap (String.append (utf8 u)) (string_body r2)
                              end
                          | _ => pmap (String.append (utf8 u)) (string_body r2)
                          end
                      end
                  | _ => Malformed
                  end
                else Malformed
            end
        end
      else if (N_of_ascii c <? 32)%N then Malformed
      else pmap (String c) (string_body r)
  end.

(** Greedy run of decimal digits: their value after [acc], how many were
    read, and the rest. *)
Fixpoint digits (s : string) (acc : Z) (count : Z) : Z * Z * string :=
  match s with
  | String c r =>
      match digit c with
      | Some d => digits r (acc * 10 + d) (count + 1)
      | None => (acc, count, s)
      end
  | EmptyString => (acc, count, s)
  end.

(** A number: an optional minus sign; then a single zero or a non-zero
    digit followed by digits; then optionally a dot and at least one
    digit; then optionally e or E, a sign and at least one digit. *)
Definition minus_sign (s : string) : bool * string :=
  match s with
  | String c r => if Ascii.eqb c "-" then (true, r) else (false, s)
  | EmptyString => (false, s)
  end.

Definition int_part (s : string) : option (Z * string) :=
  match s with
  | String c r =>
      if Ascii.eqb c "0" then Some (0%Z, r)
      else match digit c with
           | Some _ => let '(v, _, r') := digits s 0 0 in Some (v, r')
           | None => None
           end
  | EmptyString => None
  end.

(** The digits after the dot continue the mantissa [i]; [k] counts them. *)
Definition frac_part (i : Z) (s : string) : option (Z * Z * string) :=
  match s with
  | String c r =>
      if Ascii.eqb c "." then
        let '(v, k, r') := digits r i 0 in
        if (k =? 0)%Z then None else Some (v, k, r')
      else Some (i, 0%Z, s)
  | EmptyString => Some (i, 0%Z, s)
  end.

Definition exp_sign (s : string) : bool * string :=
  match s with
  | String sg r =>
      if Ascii.eqb sg "-" then (true, r)
      else if Ascii.eqb sg "+" then (false, r)
      else (false, s)
  | EmptyString => (false, s)
  end.

Definition exp_part (s : string) : option (Z * string) :=
  match s with
  | String c r =>
      if Ascii.eqb c "e" || Ascii.eqb c "E" then
        let (negative, r1) := exp_sign r in
        let '(v, n, r2) := digits r1 0 0 in
        if (n =? 0)%Z then None
        else Some ((if negative then - v else v)%Z, r2)
      else Some (0%Z, s)
  | EmptyString => Some (0%Z, s)
  end.

Definition number (s : string) : parsed json :=
  let (negative, s1) := minus_sign s in
  match int_part s1 with
  | None => Malformed
  | Some (i, s2) =>
      match frac_part i s2 with
      | None => Malformed
      | Some (m, k, s3) =>
          match exp_part s3 with
          | None => Malformed
          | Some (e, s4) => Parsed (JNum (if negative then - m else m) (e - k)) s4
          end
      end
  end.

(** [literal w v s]: the text [s] starts with the word [w]. *)
Fixpoint literal (w : string) (v : json) (s : string) : parsed json :=
  match w, s with
  | EmptyString, _ => Parsed v s
  | String a w', String b s' => if Ascii.eqb a b then literal w' v s' else Malformed
  | String _ _, EmptyString => Malformed
  end.

(** Recursive descent.  [value] reads one value after optional white
    space; [elements] reads [value (, value)* ]] and [members] reads
    [string : value (, string : value)* }]. *)
Fixpoint value (fuel : nat) (s : string) {struct fuel} : parsed json :=
  match fuel with
  | O => OutOfFuel
  | S fuel' =>
      match skip_ws s with
      | EmptyString => Malformed
      | String c r =>
          if Ascii.eqb c "[" then
            match skip_ws r with
            | String c' r' =>
                if Ascii.eqb c' "]" then Parsed (JArr []) r'
                else pmap JArr (elements fuel' r)
            | EmptyString => Malformed
            end
          else if Ascii.eqb c "{" then
            match skip_ws r with
            | String c' r' =>
                if Ascii.eqb c' "}" then Parsed (JObj []) r'
                else pmap JObj (members fuel' r)
            | EmptyString => Malformed
            end
          else if Ascii.eqb c dquote then pmap JStr (string_body r)
          else if Ascii.eqb c "t" then literal "true" (JBool true) (String c r)
          else if Ascii.eqb c "f" then literal "false" (JBool false) (String c r)
          else if Ascii.eqb c "n" then literal "null" JNull (String c r)
          else number (String c r)
      end
  end

with elements (fuel : nat) (s : string) {struct fuel} : parsed (list json) :=
  match fuel with
  | O => OutOfFuel
  | S fuel' =>
      match value fuel' s with
      | Parsed v rest =>
          match skip_ws rest with
          | String c r =>
              if Ascii.eqb c "," then pmap (cons v) (elements fuel' r)
              else if Ascii.eqb c "]" then Parsed [v] r
              else Malformed
          | EmptyString => Malformed
          end
      | Malformed => Malformed
      | OutOfFuel => OutOfFuel
      end
  end

with members (fuel : nat) (s : string) {struct fuel} : parsed (list (string * json)) :=
  match fuel with
  | O => OutOfFuel
  | S fuel' =>
      match skip_ws s with
      | String q r =>
          if Ascii.eqb q dquote then
            match string_body r with
            | Parsed k rest =>
                match skip_ws rest with
                | String c r1 =>
                    if Ascii.eqb c ":" then
                      match value fuel' r1 with
                      | Parsed v rest' =>
                          match skip_ws rest' with
                          | String c' r2 =>
                              if Ascii.eqb c' "," then pmap (cons (k, v)) (members fuel' r2)
                              else if Ascii.eqb c' "}" then Parsed [(k, v)] r2
                              else Malformed
                          | EmptyString => Malformed
                          end
                      | Malformed => Malformed
                      | OutOfFuel => OutOfFuel
                      end
                    else Malformed
                | EmptyString => Malformed
                end
            | Malformed => Malformed
            | OutOfFuel => OutOfFuel
            end
          else Malformed
      | EmptyString => Malformed
      end
  end.

(** Enough budget for any text: every level of recursion of [value]
    consumes a character and passes through at most one list level. *)
Definition budget (text : string) : nat := 2 * String.length text + 2.

(** [JSON.parse(text)]: one value surrounded by optional white space.
    The message of the [SyntaxError] is the engine's; it is left empty. *)
Definition parse (text : string) : completion json :=
  match value (budget text) text with
  | Parsed v rest =>
      match skip_ws rest with
      | EmptyString => Normal v
      | String _ _ => Throw (SyntaxError EmptyString)
      end
  | Malformed | OutOfFuel => Throw (SyntaxError EmptyString)
  end.

(** A successful read leaves strictly less text than [bound]. *)
Definition consumes {A : Type} (bound : nat) (p : parsed A) : Prop :=
  match p with
  | Parsed _ rest => (String.length rest < bound)%nat
  | Malformed | OutOfFuel => True
  end.

Definition funded {A : Type} (p : parsed A) : Prop :=
  match p with
  | OutOfFuel => False
  | Parsed _ _ | Malformed => True
  end.

End JSON.

(* ================================================================= *)
(** ** PCCS data: the tone and hue catalogs                           *)
(* ================================================================= *)

Module Tone.
Record t : Type := mk
  { id : string; name : string; label : string; s : Z; l : Z; desc : string }.
End Tone.

Module Hue.
Record t : Type := mk { id : Z; name : string; h : Z }.
End Hue.

Module ColorEntry.
Record t : Type := mk
  { id : string;
    toneId : string;
    toneName : string;
    toneLabel : string;
    hueName : string;
    css : string;
    desc : string }.
End ColorEntry.

Definition TONES : list Tone.t :=
  [ Tone.mk "v"   "Vivid"         "01 Vivid"         100 50 "純粹、飽和、鮮豔";
    Tone.mk "b"   "Bright"        "02 Bright"        85  65 "愉悅、清晰";
    Tone.mk "s"   "Strong"        "03 Strong"        70  45 "動感、強烈";
    Tone.mk "dp"  "Deep"          "04 Deep"          80  30 "傳統、深奧";
    Tone.mk "lt"  "Light"         "05 Light"         55  75 "舒適、清新";
    Tone.mk "sf"  "Soft"          "06 Soft"          40  60 "溫柔、自然";
    Tone.mk "d"   "Dull"          "07 Dull"          40  45 "穩重、樸實";
    Tone.mk "dk"  "Dark"          "08 Dark"          50  25 "成熟、穩健";
    Tone.mk "p"   "Pale"          "09 Pale"          25  88 "精緻、輕盈";
    Tone.mk "ltg" "Light Grayish" "10 Light Grayish" 15  70 "平靜、柔和";
    Tone.mk "g"   "Grayish"       "11 Grayish"       15  45 "寧靜、別緻";
    Tone.mk "dkg" "Dark Grayish"  "12 Dark Grayish"  10  25 "厚重、堅實" ].

Definition HUES : list Hue.t :=
  [ Hue.mk 2  "紅色 (Red)"            355;
    Hue.mk 4  "紅橙色 (Red-Orange)"    15;
    Hue.mk 6  "橙色 (Orange)"         35;
    Hue.mk 8  "黃色 (Yellow)"         50;
    Hue.mk 10 "黃綠色 (Yellow-Green)"  75;
    Hue.mk 12 "綠色 (Green)"          120;
    Hue.mk 14 "藍綠色 (Blue-Green)"    160;
    Hue.mk 16 "綠藍色 (Green-Blue)"    180;
    Hue.mk 18 "藍色 (Blue)"           210;
    Hue.mk 20 "藍紫色 (Violet)"        260;
    Hue.mk 22 "紫色 (Purple)"         290;
    Hue.mk 24 "紅紫色 (Red-Purple)"    320 ].

(* ================================================================= *)
(** ** Colour derivation and the deck                                 *)
(* ================================================================= *)

(** The text [hsl(h, s%, l%)] that the template literal of
    [generateColor] builds from three numbers. *)
Definition hsl (h s l : Z) : string :=
  "hsl(" ++ Js.Number_toString h ++ ", " ++ Js.Number_toString s ++ "%, "
         ++ Js.Number_toString l ++ "%)".

Definition generateColor (tone : Tone.t) (hue : Hue.t) : ColorEntry.t :=
  let adjustedL := Tone.l tone in
  let adjustedL :=
    if ((Hue.h hue >? 30) && (Hue.h hue <? 60))%Z && (Tone.l tone <? 50)%Z
    then (adjustedL + 5)%Z
    else adjustedL in
  {| ColorEntry.id := Tone.id tone ++ "-" ++ Js.Number_toString (Hue.id hue);
     ColorEntry.toneId := Tone.id tone;
     ColorEntry.toneName := Tone.name tone;
     ColorEntry.toneLabel := Tone.label tone;
     ColorEntry.hueName := Hue.name hue;
     ColorEntry.css := hsl (Hue.h hue) (Tone.s tone) adjustedL;
     ColorEntry.desc := Tone.desc tone |}.

(** [xs.forEach(f)] where [f] updates the state [S]. *)
Definition forEach {A S : Type} (xs : list A) (f : A -> S -> S) (st : S) : S :=
  fold_left (fun acc x => f x acc) xs st.

(** [deck.push(x)]. *)
Definition push {A : Type} (x : A) (deck : list A) : list A := (deck ++ [x])%list.

Definition generateFullDeck : list ColorEntry.t :=
  let deck := [] in
  let deck :=
    forEach TONES (fun tone =>
      forEach HUES (fun hue => push (generateColor tone hue))) deck in
  deck.

(** Reading a colour text back: the three numbers of [hsl(h, s%, l%)].
    Used only to state what a rendered colour contains. *)
Module Css.

Fixpoint strip (prefix s : string) : option string :=
  match prefix, s with
  | EmptyString, _ => Some s
  | String a p, String b r => if Ascii.eqb a b then strip p r else None
  | String _ _, EmptyString => None
  end.

Definition natural (s : string) : option (Z * string) :=
  let '(v, n, rest) := JSON.digits s 0 0 in
  if (n =? 0)%Z then None else Some (v, rest).

Definition components (css : string) : option (Z * Z * Z) :=
  match strip "hsl(" css with
  | None => None
  | Some s1 =>
  match natural s1 with
  | None => None
  | Some (h, s2) =>
  match strip ", " s2 with
  | None => None
  | Some s3 =>
  match natural s3 with
  | None => None
  | Some (s, s4) =>
  match strip "%, " s4 with
  | None => None
  | Some s5 =>
  match natural s5 with
  | None => None
  | Some (l, s6) =>
  match strip "%)" s6 with
  | Some EmptyString => Some (h, s, l)
  | _ => None
  end end end end end end end.

End Css.

(* ================================================================= *)
(** ** Randomness and Array.prototype.sort                            *)
(* ================================================================= *)

(** The values [Math.random()] is going to return, and how many of them
    have been consumed. *)
Record RandomSource : Type := mkRandom { draw : nat -> Q; cursor : nat }.

Definition Math_random (g : RandomSource) : Q * RandomSource :=
  (draw g (cursor g), {| draw := draw g; cursor := S (cursor g) |}).

(** A comparison function may consume randomness. *)
Definition comparator (A : Type) : Type := A -> A -> RandomSource -> Q * RandomSource.

(** [() => 0.5 - Math.random()].  Only the sign of the result is used
    by a sort, and the sign of the rounded difference of two doubles is
    the sign of their exact difference. *)
Definition random_order {A : Type} : comparator A :=
  fun _ _ g => let (r, g') := Math_random g in ((1 # 2) - r, g')%Q.

(** An array holds values, any of which may be [undefined]. *)
Definition array (A : Type) : Type := list (option A).

(** The type of [Array.prototype.sort] called with a comparison function. *)
Definition sort_function : Type :=
  forall A : Type, comparator A -> array A -> RandomSource -> array A * RandomSource.

(** What the quiz relies on: whatever the comparison function answers,
    the sorted array holds the elements it held before. *)
Definition permuting (sort : sort_function) : Prop :=
  forall A (cmp : comparator A) (xs : array A) (g : RandomSource),
    Permutation (fst (sort A cmp xs g)) xs.

(** One sort that engines use on short arrays, insertion sort; the
    [undefined] elements go last without being compared. *)
Module InsertionSort.

Fixpoint insert {A} (cmp : comparator A) (x : A) (sorted : list A) (g : RandomSource)
  : list A * RandomSource :=
  match sorted with
  | [] => ([x], g)
  | y :: ys =>
      let (v, g1) := cmp x y g in
      if Qle_bool v 0 then (x :: y :: ys, g1)
      else let (r, g2) := insert cmp x ys g1 in (y :: r, g2)
  end.

Fixpoint isort {A} (cmp : comparator A) (xs : list A) (g : RandomSource)
  : list A * RandomSource :=
  match xs with
  | [] => ([], g)
  | x :: rest =>
      let (sorted, g1) := isort cmp rest g in
      insert cmp x sorted g1
  end.

Fixpoint defined {A} (xs : array A) : list A :=
  match xs with
  | [] => []
  | Some x :: rest => x :: defined rest
  | None :: rest => defined rest
  end.

Fixpoint undefineds {A} (xs : array A) : array A :=
  match xs with
  | [] => []
  | Some _ :: rest => undefineds rest
  | None :: rest => None :: undefineds rest
  end.

Definition sort : sort_function :=
  fun A cmp xs g =>
    let (sorted, g') := isort cmp (defined xs) g in
    ((map Some sorted ++ undefineds xs)%list, g').

End InsertionSort.

(* ================================================================= *)
(** ** The quiz                                                       *)
(* ================================================================= *)

Section Quiz.

Variable Array_sort : sort_function.

(** The [options] memo of [Flashcard]. *)
Definition options (card : ColorEntry.t) (g : RandomSource)
  : array Tone.t * RandomSource :=
  let (shuffled, g1) :=
    Array_sort _ random_order
      (map Some
         (filter (fun t => negb (Tone.id t =? ColorEntry.toneId card)) TONES)) g in
  let distractors := firstn 3 shuffled in
  let correctTone := find (fun t => Tone.id t =? ColorEntry.toneId card) TONES in
  Array_sort _ random_order (distractors ++ [correctTone])%list g1.

(** The deck a quiz starts with: [generateFullDeck().sort(...)]. *)
Definition shuffledDeck (g : RandomSource) : array ColorEntry.t * RandomSource :=
  Array_sort _ random_order (map Some generateFullDeck) g.

End Quiz.

(** The state cells of [QuizView]. *)
Record QuizState : Type := mkQuiz
  { deck : list ColorEntry.t;
    currentCardIndex : nat;
    showAnswer : bool;
    selectedOption : option string;
    score : Z;
    streak : Z;
    bestStreak : Z;
    history : list bool }.

(** The initial values given to [useState]; the deck is filled by the
    effect that runs after the first render. *)
Definition initialState (deck : list ColorEntry.t) : QuizState :=
  {| deck := deck; currentCardIndex := 0; showAnswer := false;
     selectedOption := None; score := 0; streak := 0; bestStreak := 0;
     history := [] |}.

(** State setters, each given an updater function as in [setScore(s => s + 10)]. *)
Definition setCurrentCardIndex (f : nat -> nat) (st : QuizState) : QuizState :=
  {| deck := deck st; currentCardIndex := f (currentCardIndex st);
     showAnswer := showAnswer st; selectedOption := selectedOption st;
     score := score st; streak := streak st; bestStreak := bestStreak st;
     history := history st |}.

Definition setShowAnswer (f : bool -> bool) (st : QuizState) : QuizState :=
  {| deck := deck st; currentCardIndex := currentCardIndex st;
     showAnswer := f (showAnswer st); selectedOption := selectedOption st;
     score := score st; streak := streak st; bestStreak := bestStreak st;
     history := history st |}.

Definition setSelectedOption (f : option string -> option string) (st : QuizState)
  : QuizState :=
  {| deck := deck st; currentCardIndex := currentCardIndex st;
     showAnswer := showAnswer st; selectedOption := f (selectedOption st);
     score := score st; streak := streak st; bestStreak := bestStreak st;
     history := history st |}.

Definition setScore (f : Z -> Z) (st : QuizState) : QuizState :=
  {| deck := deck st; currentCardIndex := currentCardIndex st;
     showAnswer := showAnswer st; selectedOption := selectedOption st;
     score := f (score st); streak := streak st; bestStreak := bestStreak st;
     history := history st |}.

Definition setBestStreak (f : Z -> Z) (st : QuizState) : QuizState :=
  {| deck := deck st; currentCardIndex := currentCardIndex st;
     showAnswer := showAnswer st; selectedOption := selectedOption st;
     score := score st; streak := streak st; bestStreak := f (bestStreak st);
     history := history st |}.

(** [setStreak] with an updater that may itself schedule further updates
    (the source calls [setBestStreak] inside it): the updater returns the
    new streak and the updates it scheduled. *)
Definition setStreak (f : Z -> Z * (QuizState -> QuizState)) (st : QuizState)
  : QuizState :=
  let (newStreak, scheduled) := f (streak st) in
  scheduled
    {| deck := deck st; currentCardIndex := currentCardIndex st;
       showAnswer := showAnswer st; selectedOption := selectedOption st;
       score := score st; streak := newStreak; bestStreak := bestStreak st;
       history := history st |}.

Definition setHistory (f : list bool -> list bool) (st : QuizState) : QuizState :=
  {| deck := deck st; currentCardIndex := currentCardIndex st;
     showAnswer := showAnswer st; selectedOption := selectedOption st;
     score := score st; streak := streak st; bestStreak := bestStreak st;
     history := f (history st) |}.

(** A plain value given to a setter. *)
Definition const {A : Type} (a : A) : A -> A := fun _ => a.

(** [h.slice(-k)]: the last [k] elements, all of them when there are fewer. *)
Definition slice_last {A : Type} (k : nat) (h : list A) : list A :=
  skipn (List.length h - k) h.

(** [handleGuess].  [None] is the [TypeError] of reading [toneId] from
    an [undefined] card, when the index is outside the deck. *)
Definition handleGuess (toneId : string) (st : QuizState) : option QuizState :=
  match nth_error (deck st) (currentCardIndex st) with
  | None => None
  | Some currentCard =>
      let isCorrect := toneId =? ColorEntry.toneId currentCard in
      let st := setSelectedOption (const (Some toneId)) st in
      let st := setShowAnswer (const true) st in
      if isCorrect then
        let st := setScore (fun s => s + 10)%Z st in
        let st := setStreak (fun s =>
                    let newStreak := (s + 1)%Z in
                    (newStreak, setBestStreak (fun b => Z.max b newStreak))) st in
        let st := setHistory (fun h => slice_last 4 h ++ [true])%list st in
        Some st
      else
        let st := setStreak (fun _ => (0%Z, fun st => st)) st in
        let st := setHistory (fun h => slice_last 4 h ++ [false])%list st in
        Some st
  end.

(** [nextCard].  With an empty deck the new index would be [NaN]; the
    view never offers the button then, and the model answers [None]. *)
Definition nextCard (st : QuizState) : option QuizState :=
  match List.length (deck st) with
  | O => None
  | S _ =>
      let st := setShowAnswer (const false) st in
      let st := setSelectedOption (const None) st in
      let st := setCurrentCardIndex
                  (fun prev => Nat.modulo (prev + 1) (List.length (deck st))) st in
      Some st
  end.

(** The buttons a rendered [Flashcard] carries. *)
Inductive button : Type :=
| GuessButton (toneId : string)   (* onClick={() => onGuess(opt.id)} *)
| NextButton                      (* onClick={nextCard} *)
| AdviceButton.                   (* the AIContextButton, which has state of its own *)

Fixpoint option_ids (opts : array Tone.t) : option (list string) :=
  match opts with
  | [] => Some []
  | Some t :: rest => option_map (cons (Tone.id t)) (option_ids rest)
  | None :: rest => None
  end.

(** The buttons of [Flashcard]: the overlay with the next-card button
    is rendered under [showAnswer], the answer buttons under
    [!showAnswer].  [None] is the [TypeError] of rendering an
    [undefined] option. *)
Definition Flashcard_buttons (opts : array Tone.t) (showAnswer : bool)
  : option (list button) :=
  if showAnswer then Some [AdviceButton; NextButton]
  else option_map (map GuessButton) (option_ids opts).

(** What a click does to the quiz state. *)
Definition click (b : button) (st : QuizState) : option QuizState :=
  match b with
  | GuessButton toneId => handleGuess toneId st
  | NextButton => nextCard st
  | AdviceButton => Some st
  end.

(** A session as a list of calls; the second component is the list of
    outcomes of the guesses, oldest first. *)
Inductive call : Type :=
| Guess (toneId : string)
| Next.

Definition outcome (toneId : string) (st : QuizState) : option bool :=
  option_map (fun card => toneId =? ColorEntry.toneId card)
             (nth_error (deck st) (currentCardIndex st)).

Fixpoint run (calls : list call) (st : QuizState) (log : list bool)
  : option (QuizState * list bool) :=
  match calls with
  | [] => Some (st, log)
  | Guess toneId :: rest =>
      match outcome toneId st, handleGuess toneId st with
      | Some b, Some st' => run rest st' (log ++ [b])%list
      | _, _ => None
      end
  | Next :: rest =>
      match nextCard st with
      | Some st' => run rest st' log
      | None => None
      end
  end.

(* ================================================================= *)
(** ** Settings                                                       *)
(* ================================================================= *)

(** [import.meta.env]: the three values injected at build time, each a
    string or [undefined]. *)
Record Env : Type := mkEnv
  { VITE_API_KEY : option string;
    VITE_BASE_URL : option string;
    VITE_MODEL : option string }.

(** [localStorage]: keys and the strings stored under them. *)
Definition Storage : Type := list (string * string).

(** [localStorage.getItem(key)]; [None] is [null]. *)
Fixpoint getItem (store : Storage) (key : string) : option string :=
  match store with
  | [] => None
  | (k, v) :: rest => if k =? key then Some v else getItem rest key
  end.

(** The object [getSettings] returns.  A field holds whatever value the
    stored record had there when that value is truthy, a string otherwise. *)
Record Settings : Type := mkSettings
  { baseUrl : Js.json; apiKey : Js.json; model : Js.json }.

(** [if (saved)] for a string or [null]. *)
Definition present (saved : option string) : bool :=
  match saved with
  | Some s => Js.nonempty s
  | None => false
  end.

Module App.
Import Js.

(** [getSettings] of [App.jsx]: the build-time values with their
    fallbacks first, then the stored record over them when
    [localStorage] holds a non-empty text. *)
Definition getSettings (env : Env) (localStorage : Storage) : completion Settings :=
  let envApiKey := or_string (VITE_API_KEY env) EmptyString in
  let envBaseUrl := or_string (VITE_BASE_URL env) "https://models.inference.ai.azure.com" in
  let envModel := or_string (VITE_MODEL env) "gpt-4o" in
  let saved := getItem localStorage "pccs_app_settings" in
  match saved with
  | Some text =>
      if nonempty text then
        parsed <- JSON.parse text ;;
        b <- get parsed "baseUrl" ;;
        k <- get parsed "apiKey" ;;
        m <- get parsed "model" ;;
        Normal {| baseUrl := or_value b envBaseUrl;
                  apiKey := or_value k envApiKey;
                  model := or_value m envModel |}
      else
        Normal {| baseUrl := JStr envBaseUrl;
                  apiKey := JStr envApiKey;
                  model := JStr envModel |}
  | None =>
      Normal {| baseUrl := JStr envBaseUrl;
                apiKey := JStr envApiKey;
                model := JStr envModel |}
  end.

End App.

Module Seasonal.
Import Js.

(** [getSettings] of [SeasonalColorAnalysis.jsx]. *)
Definition getSettings (env : Env) (localStorage : Storage) : completion Settings :=
  let envApiKey := or_string (VITE_API_KEY env) EmptyString in
  let envBaseUrl :=
    or_string (VITE_BASE_URL env) "https://generativelanguage.googleapis.com/v1beta/openai/" in
  let envModel := or_string (VITE_MODEL env) "gemini-1.5-flash" in
  let saved := getItem localStorage "pccs_app_settings" in
  match saved with
  | Some text =>
      if nonempty text then
        parsed <- JSON.parse text ;;
        b <- get parsed "baseUrl" ;;
        k <- get parsed "apiKey" ;;
        m <- get parsed "model" ;;
        Normal {| baseUrl := or_value b envBaseUrl;
                  apiKey := or_value k envApiKey;
                  model := or_value m envModel |}
      else
        Normal {| baseUrl := JStr envBaseUrl;
                  apiKey := JStr envApiKey;
                  model := JStr envModel |}
  | None =>
      Normal {| baseUrl := JStr envBaseUrl;
                apiKey := JStr envApiKey;
                model := JStr envModel |}
  end.

End Seasonal.

(** The resolution the specification describes, field by field: the
    persisted value when present and not empty, else the build-time value
    when present and not empty, else the fallback. *)
Module Resolver.

Definition pick (persisted buildTime : option string) (fallback : string) : string :=
  match persisted with
  | Some (String c r) => String c r
  | _ =>
      match buildTime with
      | Some (String c r) => String c r
      | _ => fallback
      end
  end.

(** The string stored under [k] in the persisted record, if there is a
    record, it has the member, and the member is a string. *)
Definition field (k : string) (record : option (list (string * Js.json)))
  : option string :=
  match record with
  | Some members =>
      match Js.lookup k members with
      | Some (Js.JStr s) => Some s
      | _ => None
      end
  | None => None
  end.

Definition resolve (env : Env) (record : option (list (string * Js.json)))
    (fallbackBaseUrl fallbackModel : string) : Settings :=
  {| baseUrl := Js.JStr (pick (field "baseUrl" record) (VITE_BASE_URL env) fallbackBaseUrl);
     apiKey := Js.JStr (pick (field "apiKey" record) (VITE_API_KEY env) EmptyString);
     model := Js.JStr (pick (field "model" record) (VITE_MODEL env) fallbackModel) |}.

(** Every member of the record is a string. *)
Definition string_record (members : list (string * Js.json)) : Prop :=
  Forall (fun kv => exists s, snd kv = Js.JStr s) members.

(** [stored store record]: the storage holds the persisted record
    [record], a JSON object with string members; or it holds nothing
    under the key (or the empty string), and [record] is [None]. *)
Definition stored (store : Storage) (record : option (list (string * Js.json))) : Prop :=
  match record with
  | Some members =>
      exists text,
        getItem store "pccs_app_settings" = Some text
        /\ JSON.parse text = Js.Normal (Js.JObj members)
        /\ string_record members
  | None =>
      getItem store "pccs_app_settings" = None
      \/ getItem store "pccs_app_settings" = Some EmptyString
  end.

End Resolver.

(* ================================================================= *)
(** ** The advisory call                                              *)
(* ================================================================= *)

Module Net.

Record Message : Type := mkMessage { role : string; content : string }.

(** The object given to [JSON.stringify] as the request body. *)
Record Payload : Type := mkPayload
  { payload_model : Js.json; messages : list Message; temperature : Q }.

Record Request : Type := mkRequest
  { url : string;
    method : string;
    headers : list (string * string);
    body : Payload }.

(** A response: [ok], [status], and what [response.json()] settles to. *)
Record Response : Type := mkResponse
  { ok : bool; status : Z; json_result : Js.completion Js.json }.

(** An asynchronous computation seen from outside: it returns a value,
    rejects, asks for a network request and continues with what comes
    back (a rejection or a response), or logs to the console. *)
Inductive io (R : Type) : Type :=
| Ret (r : R)
| Reject (e : Js.error)
| Fetch (req : Request) (k : Js.error + Response -> io R)
| ConsoleError (label : string) (e : Js.error) (k : io R).
Arguments Ret {R} r.
Arguments Reject {R} e.
Arguments Fetch {R} req k.
Arguments ConsoleError {R} label e k.

(** The number of network requests made when the network answers as
    [network] says. *)
Fixpoint requests {R} (network : Request -> Js.error + Response) (p : io R) : nat :=
  match p with
  | Ret _ | Reject _ => O
  | Fetch req k => S (requests network (k (network req)))
  | ConsoleError _ _ k => requests network k
  end.

End Net.

(** [s.includes(needle)]. *)
Fixpoint includes (needle s : string) : bool :=
  if String.prefix needle s then true
  else match s with
       | String _ r => includes needle r
       | EmptyString => false
       end.

(** [s.replace(/\/$/, '')]: drop one slash at the very end. *)
Fixpoint dropTrailingSlash (s : string) : string :=
  match s with
  | EmptyString => EmptyString
  | String c EmptyString => if Ascii.eqb c "/" then EmptyString else s
  | String c r => String c (dropTrailingSlash r)
  end.

Section Advisory.
Import Js Net.

(** [String(v)] for a value that is not a string; the engine's. *)
Variable ToString : json -> string.

Definition interpolate (v : json) : string :=
  match v with
  | JStr s => s
  | _ => ToString v
  end.

Definition missingKeyMessage : string :=
  "錯誤：未偵測到 API Key。請設定環境變數 (VITE_API_KEY) 或在設定選單中手動輸入。".

(** The body of the [try] block once [fetch] has settled. *)
Definition afterFetch (settled : error + Response) : completion json :=
  match settled with
  | inl e => Throw e
  | inr response =>
      if negb (ok response) then
        let errData :=
          match json_result response with
          | Normal d => d
          | Throw _ => JObj []
          end in
        err <- get errData "error" ;;
        Throw (Error ("API Error: " ++ Number_toString (status response) ++ " "
                      ++ interpolate (or_value (get_opt err "message") EmptyString)))
      else
        data <- json_result response ;;
        choices <- get data "choices" ;;
        Normal (or_value
                  (get_opt (get_opt (index0_opt choices) "message") "content")
                  "無法產生回應。")
  end.

(** [callOpenAI(prompt, systemInstruction)]; the second argument
    defaults to the empty string. *)
Definition callOpenAI (env : Env) (localStorage : Storage)
    (prompt : string) (systemInstruction : option string) : io json :=
  let systemInstruction :=
    match systemInstruction with
    | Some s => s
    | None => EmptyString
    end in
  match App.getSettings env localStorage with
  | Throw e => Reject e
  | Normal settings =>
      let baseUrl := baseUrl settings in
      let apiKey := apiKey settings in
      let model := model settings in
      if negb (truthy apiKey) then Ret (JStr missingKeyMessage)
      else
        match baseUrl with
        | JStr baseUrl =>
            let cleanBaseUrl := dropTrailingSlash baseUrl in
            let url :=
              if includes "chat/completions" cleanBaseUrl then cleanBaseUrl
              else cleanBaseUrl ++ "/chat/completions" in
            let payload :=
              {| payload_model := model;
                 messages := [ {| role := "system"; content := systemInstruction |};
                               {| role := "user"; content := prompt |} ];
                 temperature := 7 # 10 |} in
            Fetch {| url := url;
                     method := "POST";
                     headers := [ ("Content-Type", "application/json");
                                  ("Authorization", "Bearer " ++ interpolate apiKey) ];
                     body := payload |}
              (fun settled =>
                 match afterFetch settled with
                 | Normal v => Ret v
                 | Throw error =>
                     ConsoleError "LLM Call Failed:" error
                       (Ret (JStr ("錯誤: " ++ message error)))
                 end)
        | _ => Reject (TypeError "baseUrl.replace is not a function")
        end
  end.

End Advisory.

(** How many answers a list of calls submits. *)
Fixpoint guesses (calls : list call) : nat :=
  match calls with
  | [] => O
  | Guess _ :: rest => S (guesses rest)
  | Next :: rest => guesses rest
  end.

(* ================================================================= *)
(** ** Sample inputs                                                  *)
(* ================================================================= *)

Module Sample.

Definition strong : Tone.t := Tone.mk "s" "Strong" "03 Strong" 70 45 "動感、強烈".
Definition pale : Tone.t := Tone.mk "p" "Pale" "09 Pale" 25 88 "精緻、輕盈".
Definition yellow : Hue.t := Hue.mk 8 "黃色 (Yellow)" 50.
Definition blue : Hue.t := Hue.mk 18 "藍色 (Blue)" 210.

(** A fresh session on the unshuffled deck: card 0 is Vivid red. *)
Definition fresh : QuizState := initialState generateFullDeck.

(** The same session once the right tone has been given for card 0. *)
Definition answered : QuizState :=
  {| deck := generateFullDeck; currentCardIndex := 0; showAnswer := true;
     selectedOption := Some "v"; score := 10; streak := 1; bestStreak := 1;
     history := [true] |}.

(** Six answers with the card advanced after each: right, wrong,
    right, right, wrong, right. *)
Definition sixAnswers : list call :=
  [ Guess "v"; Next; Guess "b"; Next; Guess "v"; Next;
    Guess "v"; Next; Guess "p"; Next; Guess "v"; Next ].

(** A random source that goes round 1/4, 3/4, 1/2. *)
Definition rotating : RandomSource :=
  {| draw := fun k => match Nat.modulo k 3 with
                      | O => 1 # 4
                      | S O => 3 # 4
                      | _ => 1 # 2
                      end;
     cursor := 0 |}.

(** The red card of the Deep tone. *)
Definition deepRed : ColorEntry.t :=
  generateColor (Tone.mk "dp" "Deep" "04 Deep" 80 30 "傳統、深奧")
                (Hue.mk 2 "紅色 (Red)" 355).

(** A string literal of JSON text. *)
Definition quoted (s : string) : string :=
  String Js.dquote (s ++ String Js.dquote EmptyString).

Definition member (k v : string) : string := quoted k ++ ":" ++ quoted v.

(** What the settings dialog stores when only the model is filled in. *)
Definition miniModelText : string :=
  "{" ++ member "baseUrl" EmptyString ++ "," ++ member "apiKey" EmptyString
      ++ "," ++ member "model" "gpt-4o-mini" ++ "}".

Definition miniModelRecord : list (string * Js.json) :=
  [ ("baseUrl", Js.JStr EmptyString); ("apiKey", Js.JStr EmptyString);
    ("model", Js.JStr "gpt-4o-mini") ].

(** A stored record whose model is the empty string. *)
Definition blankModelText : string := "{" ++ member "model" EmptyString ++ "}".

Definition blankModelRecord : list (string * Js.json) :=
  [ ("model", Js.JStr EmptyString) ].

Definition storing (text : string) : Storage := [ ("pccs_app_settings", text) ].

Definition noEnv : Env := mkEnv None None None.
Definition gpt4oEnv : Env := mkEnv None None (Some "gpt-4o").
Definition fullEnv : Env :=
  mkEnv (Some "sk-build") (Some "https://api.openai.com/v1/") (Some "gpt-4.1").

End Sample.

(** The composite identifier of the entry of a pair. *)
Definition pairId (tone : Tone.t) (hue : Hue.t) : string :=
  Tone.id tone ++ "-" ++ Js.Number_toString (Hue.id hue).

Fixpoint distinct (xs : list string) : bool :=
  match xs with
  | [] => true
  | x :: rest => negb (existsb (String.eqb x) rest) && distinct rest
  end.

(* ================================================================= *)
(** * Properties                                                      *)
(* ================================================================= *)

(** ** Lists *)

Lemma distinct_NoDup (xs : list string) : distinct xs = true -> NoDup xs.
Proof.
  induction xs as [|x rest IH]; simpl; intros H.
  - constructor.
  - apply andb_prop in H. destruct H as [Hx Hrest].
    constructor.
    + intros Hin. apply negb_true_iff in Hx.
      assert (existsb (String.eqb x) rest = true) as E.
      { apply existsb_exists. exists x. split; [exact Hin | apply String.eqb_refl]. }
      congruence.
    + apply IH, Hrest.
Qed.

Ltac each_member H :=
  simpl in H;
  repeat (destruct H as [H | H]; [subst | ]);
  try contradiction.

(** ** JSON.parse never runs out of budget *)

Module JSONFacts.
Import JSON.

Lemma pmap_consumes {A B : Type} (f : A -> B) (p : parsed A) (b b' : nat) :
  consumes b p -> (b <= b')%nat -> consumes b' (pmap f p).
Proof. destruct p; simpl; auto; lia. Qed.

Lemma pmap_funded {A B : Type} (f : A -> B) (p : parsed A) :
  funded p -> funded (pmap f p).
Proof. destruct p; simpl; auto. Qed.

Lemma skip_ws_length (s : string) :
  (String.length (skip_ws s) <= String.length s)%nat.
Proof.
  induction s as [|c r IH]; simpl; [lia | ].
  destruct (is_ws c); simpl; lia.
Qed.

Lemma string_body_spec (n : nat) :
  forall s, (String.length s <= n)%nat ->
            consumes (S (String.length s)) (string_body s) /\ funded (string_body s).
Proof.
  induction n as [|n IH]; intros s Hs.
  - destruct s; simpl in *; [auto | lia].
  - destruct s as [|c r]; [simpl; auto | ].
    assert (forall (f : string -> string) t,
               (String.length t <= n)%nat ->
               (String.length t <= String.length r)%nat ->
               consumes (S (String.length (String c r))) (pmap f (string_body t))
               /\ funded (pmap f (string_body t))) as Hrec.
    { intros f t Ht Htr. destruct (IH t Ht) as [H1 H2].
      split; [ | now apply pmap_funded].
      apply pmap_consumes with (b := S (String.length t)); [exact H1 | simpl; lia]. }
    simpl in Hs.
    cbn [string_body].
    destruct (Ascii.eqb c Js.dquote); [simpl; split; [lia | auto] | ].
    destruct (Ascii.eqb c Js.backslash).
    + destruct r as [|e r1]; [simpl; auto | ].
      destruct (simple_escape e).
      { apply Hrec; simpl in *; lia. }
      destruct (Ascii.eqb e "u"); [ | simpl; auto].
      destruct r1 as [|h1 [|h2 [|h3 [|h4 r2]]]]; try (simpl; auto; fail).
      destruct (hex4 h1 h2 h3 h4); [ | simpl; auto].
      destruct r2 as [|b [|u2 [|l1 [|l2 [|l3 [|l4 r3]]]]]];
        try (apply Hrec; simpl in *; lia).
      destruct (hex4 l1 l2 l3 l4); [ | apply Hrec; simpl in *; lia].
      destruct (is_high_surrogate n0 && Ascii.eqb b Js.backslash
                && Ascii.eqb u2 "u" && is_low_surrogate n1);
        apply Hrec; simpl in *; lia.
    + destruct (N_of_ascii c <? 32)%N; [simpl; auto | ].
      apply Hrec; simpl in *; lia.
Qed.

Lemma string_body_consumes (s : string) :
  consumes (S (String.length s)) (string_body s) /\ funded (string_body s).
Proof. apply (string_body_spec (String.length s)). lia. Qed.

Lemma digits_length (s : string) :
  forall acc count v k rest,
    digits s acc count = (v, k, rest) ->
    (String.length rest <= String.length s)%nat.
Proof.
  induction s as [|c r IH]; intros acc count v k rest; simpl.
  - intros H. injection H as <- <- <-. simpl. lia.
  - destruct (digit c).
    + intros H. apply IH in H. lia.
    + intros H. injection H as <- <- <-. simpl. lia.
Qed.

Lemma literal_consumes (w : string) (v : Js.json) :
  forall s, consumes (S (String.length s)) (literal w v s) /\ funded (literal w v s).
Proof.
  induction w as [|a w IH]; intros s; simpl.
  - split; [lia | auto].
  - destruct s as [|b s']; [simpl; auto | ].
    destruct (Ascii.eqb a b); [ | simpl; auto].
    destruct (IH s') as [H1 H2]. split; [ | exact H2].
    destruct (literal w v s'); simpl in *; auto; lia.
Qed.

Lemma minus_sign_length (s : string) :
  (String.length (snd (minus_sign s)) <= String.length s)%nat.
Proof.
  destruct s as [|c r]; simpl; [lia | ].
  destruct (Ascii.eqb c "-"); simpl; lia.
Qed.

Lemma int_part_length (s : string) (i : Z) (rest : string) :
  int_part s = Some (i, rest) -> (String.length rest < String.length s)%nat.
Proof.
  destruct s as [|c r]; [discriminate | ].
  unfold int_part.
  destruct (Ascii.eqb c "0").
  - intros H. injection H as <- <-. simpl. lia.
  - destruct (digit c) eqn:Hc; [ | discriminate].
    destruct (digits (String c r) 0 0) as [[v k] r'] eqn:Hd.
    intros H. injection H as <- <-.
    cbn [digits] in Hd. rewrite Hc in Hd.
    apply digits_length in Hd. simpl. lia.
Qed.

Lemma frac_part_length (i : Z) (s : string) (m k : Z) (rest : string) :
  frac_part i s = Some (m, k, rest) -> (String.length rest <= String.length s)%nat.
Proof.
  destruct s as [|c r]; simpl.
  - intros H. injection H as <- <- <-. simpl. lia.
  - destruct (Ascii.eqb c ".").
    + destruct (digits r i 0) as [[v n] r'] eqn:Hd.
      destruct (n =? 0)%Z; [discriminate | ].
      intros H. injection H as <- <- <-.
      apply digits_length in Hd. lia.
    + intros H. injection H as <- <- <-. simpl. lia.
Qed.

Lemma exp_sign_length (s : string) :
  (String.length (snd (exp_sign s)) <= String.length s)%nat.
Proof.
  destruct s as [|c r]; simpl; [lia | ].
  destruct (Ascii.eqb c "-"); simpl; [lia | ].
  destruct (Ascii.eqb c "+"); simpl; lia.
Qed.

Lemma exp_part_length (s : string) (e : Z) (rest : string) :
  exp_part s = Some (e, rest) -> (String.length rest <= String.length s)%nat.
Proof.
  destruct s as [|c r]; simpl.
  - intros H. injection H as <- <-. simpl. lia.
  - destruct (Ascii.eqb c "e" || Ascii.eqb c "E").
    + pose proof (exp_sign_length r) as Hs.
      destruct (exp_sign r) as [negative r1]. simpl in Hs.
      destruct (digits r1 0 0) as [[v n] r2] eqn:Hd.
      destruct (n =? 0)%Z; [discriminate | ].
      intros H. injection H as <- <-.
      apply digits_length in Hd. lia.
    + intros H. injection H as <- <-. simpl. lia.
Qed.

Lemma number_consumes (s : string) :
  consumes (String.length s) (number s) /\ funded (number s).
Proof.
  unfold number.
  pose proof (minus_sign_length s) as H0.
  destruct (minus_sign s) as [negative s1]. simpl in H0.
  destruct (int_part s1) as [[i s2]|] eqn:H1; [ | simpl; auto].
  apply int_part_length in H1.
  destruct (frac_part i s2) as [[[m k] s3]|] eqn:H2; [ | simpl; auto].
  apply frac_part_length in H2.
  destruct (exp_part s3) as [[e s4]|] eqn:H3; [ | simpl; auto].
  apply exp_part_length in H3.
  simpl. split; [lia | auto].
Qed.

Lemma consumes_weaken {A : Type} (p : parsed A) (b b' : nat) :
  consumes b p -> (b <= b')%nat -> consumes b' p.
Proof. destruct p; simpl; auto; lia. Qed.

(** Each of the three mutually recursive readers consumes text when it
    succeeds, and does not run out when its budget exceeds twice the
    text (by one for a value, by two for a list). *)
Lemma descent_spec (fuel : nat) :
  (forall s, consumes (String.length s) (value fuel s)
             /\ ((2 * String.length s + 1 <= fuel)%nat -> funded (value fuel s)))
  /\ (forall s, consumes (String.length s) (elements fuel s)
                /\ ((2 * String.length s + 2 <= fuel)%nat -> funded (elements fuel s)))
  /\ (forall s, consumes (String.length s) (members fuel s)
                /\ ((2 * String.length s + 2 <= fuel)%nat -> funded (members fuel s))).
Proof.
  induction fuel as [|fuel [IHv [IHe IHm]]].
  { repeat split; simpl; auto; lia. }
  split; [ | split]; intros s.
  - (* value *)
    cbn [value].
    pose proof (skip_ws_length s) as Hws.
    destruct (skip_ws s) as [|c r]; [simpl; auto | ].
    simpl in Hws.
    destruct (Ascii.eqb c "[").
    { pose proof (skip_ws_length r) as Hws'.
      destruct (skip_ws r) as [|c' r']; [simpl; auto | ]. simpl in Hws'.
      destruct (Ascii.eqb c' "]"); [simpl; split; [lia | auto] | ].
      destruct (IHe r) as [H1 H2]. split.
      - apply pmap_consumes with (b := String.length r); [exact H1 | lia].
      - intros Hf. apply pmap_funded, H2. lia. }
    destruct (Ascii.eqb c "{").
    { pose proof (skip_ws_length r) as Hws'.
      destruct (skip_ws r) as [|c' r']; [simpl; auto | ]. simpl in Hws'.
      destruct (Ascii.eqb c' "}"); [simpl; split; [lia | auto] | ].
      destruct (IHm r) as [H1 H2]. split.
      - apply pmap_consumes with (b := String.length r); [exact H1 | lia].
      - intros Hf. apply pmap_funded, H2. lia. }
    destruct (Ascii.eqb c Js.dquote).
    { destruct (string_body_consumes r) as [H1 H2]. split.
      - apply pmap_consumes with (b := S (String.length r)); [exact H1 | lia].
      - intros _. now apply pmap_funded. }
    assert (forall a w v,
               consumes (String.length s) (literal (String a w) v (String c r))
               /\ funded (literal (String a w) v (String c r))) as Hlit.
    { intros a w v.
      cbn [literal]. destruct (Ascii.eqb a c); [ | simpl; auto].
      destruct (literal_consumes w v r) as [H1 H2]. split; [ | exact H2].
      apply consumes_weaken with (b := S (String.length r)); [exact H1 | lia]. }
    destruct (Ascii.eqb c "t"); [split; [apply Hlit | intros _; apply Hlit] | ].
    destruct (Ascii.eqb c "f"); [split; [apply Hlit | intros _; apply Hlit] | ].
    destruct (Ascii.eqb c "n"); [split; [apply Hlit | intros _; apply Hlit] | ].
    destruct (number_consumes (String c r)) as [H1 H2]. split.
    + apply consumes_weaken with (b := String.length (String c r)); [exact H1 | simpl; lia].
    + intros _. exact H2.
  - (* elements *)
    cbn [elements].
    destruct (IHv s) as [Hv1 Hv2].
    destruct (value fuel s) as [v rest| | ].
    + simpl in Hv1.
      pose proof (skip_ws_length rest) as Hws.
      destruct (skip_ws rest) as [|c r]; [simpl; auto | ]. simpl in Hws.
      destruct (Ascii.eqb c ",").
      { destruct (IHe r) as [H1 H2]. split.
        - apply pmap_consumes with (b := String.length r); [exact H1 | lia].
        - intros Hf. apply pmap_funded, H2. lia. }
      destruct (Ascii.eqb c "]"); simpl; [split; [lia | auto] | auto].
    + simpl. auto.
    + split; [simpl; auto | ]. intros Hf. apply Hv2. lia.
  - (* members *)
    cbn [members].
    pose proof (skip_ws_length s) as Hws.
    destruct (skip_ws s) as [|q r]; [simpl; auto | ]. simpl in Hws.
    destruct (Ascii.eqb q Js.dquote); [ | simpl; auto].
    destruct (string_body_consumes r) as [Hk1 Hk2].
    destruct (string_body r) as [k rest| | ]; [ | simpl; auto | contradiction].
    simpl in Hk1.
    pose proof (skip_ws_length rest) as Hws1.
    destruct (skip_ws rest) as [|c r1]; [simpl; auto | ]. simpl in Hws1.
    destruct (Ascii.eqb c ":"); [ | simpl; auto].
    destruct (IHv r1) as [Hv1 Hv2].
    destruct (value fuel r1) as [v rest'| | ].
    + simpl in Hv1.
      pose proof (skip_ws_length rest') as Hws2.
      destruct (skip_ws rest') as [|c' r2]; [simpl; auto | ]. simpl in Hws2.
      destruct (Ascii.eqb c' ",").
      { destruct (IHm r2) as [H1 H2]. split.
        - apply pmap_consumes with (b := String.length r2); [exact H1 | lia].
        - intros Hf. apply pmap_funded, H2. lia. }
      destruct (Ascii.eqb c' "}"); simpl; [split; [lia | auto] | auto].
    + simpl. auto.
    + split; [simpl; auto | ]. intros Hf. apply Hv2. lia.
Qed.

(** [JSON.parse] never reports a syntax error for want of budget. *)
Lemma budget_suffices (text : string) : funded (value (budget text) text).
Proof.
  destruct (descent_spec (budget text)) as [Hv _].
  apply (Hv text). unfold budget. lia.
Qed.

(** So [parse] throws exactly when the text is malformed or something
    other than white space follows the value. *)
Lemma parse_spec (text : string) :
  match value (budget text) text with
  | Parsed v rest =>
      parse text = match skip_ws rest with
                   | EmptyString => Js.Normal v
                   | String _ _ => Js.Throw (Js.SyntaxError EmptyString)
                   end
  | Malformed => parse text = Js.Throw (Js.SyntaxError EmptyString)
  | OutOfFuel => False
  end.
Proof.
  pose proof (budget_suffices text) as H. unfold parse.
  destruct (value (budget text) text); [reflexivity | reflexivity | exact H].
Qed.

End JSONFacts.

(** ** ColorSpace *)

(** C1.  For every tone and hue of the catalogs, the colour text that
    [generateColor] renders is [hsl(h, s%, l%)] with [h] the hue's angle,
    [s] the tone's saturation, and [l] the tone's lightness plus 5 when
    the angle lies strictly between 30 and 60 and the lightness is below
    50, the tone's lightness otherwise.  The tone is only read: the
    correction is made on the local [adjustedL]. *)
Theorem generateColor_yellow_band (tone : Tone.t) (hue : Hue.t) :
  In tone TONES -> In hue HUES ->
  let rendered :=
    if ((30 <? Hue.h hue) && (Hue.h hue <? 60) && (Tone.l tone <? 50))%Z
    then (Tone.l tone + 5)%Z else Tone.l tone in
  ColorEntry.css (generateColor tone hue) = hsl (Hue.h hue) (Tone.s tone) rendered
  /\ Css.components (ColorEntry.css (generateColor tone hue))
     = Some (Hue.h hue, Tone.s tone, rendered)
  /\ ColorEntry.toneId (generateColor tone hue) = Tone.id tone.
Proof.
  intros Ht Hh.
  each_member Ht; each_member Hh; vm_compute; repeat split; reflexivity.
Qed.

Lemma generateColor_yellow_band_witness :
  Css.components (ColorEntry.css (generateColor Sample.strong Sample.yellow))
    = Some (50, 70, 50)%Z
  /\ Css.components (ColorEntry.css (generateColor Sample.pale Sample.yellow))
    = Some (50, 25, 88)%Z
  /\ Css.components (ColorEntry.css (generateColor Sample.strong Sample.blue))
    = Some (210, 70, 45)%Z.
Proof.
  split; [ | split ].
  - apply (generateColor_yellow_band Sample.strong Sample.yellow);
      vm_compute; tauto.
  - apply (generateColor_yellow_band Sample.pale Sample.yellow);
      vm_compute; tauto.
  - apply (generateColor_yellow_band Sample.strong Sample.blue);
      vm_compute; tauto.
Defined.

(** ** DeckEngine *)

Lemma forEach_push_map {A B : Type} (f : A -> B) (xs : list A) (acc : list B) :
  forEach xs (fun x => push (f x)) acc = (acc ++ map f xs)%list.
Proof.
  unfold forEach, push. revert acc.
  induction xs as [|x rest IH]; intros acc; simpl.
  - now rewrite app_nil_r.
  - rewrite IH, <- app_assoc. reflexivity.
Qed.

(** Two nested [forEach] loops that push enumerate the product, the
    outer list outside. *)
Lemma forEach_product {A B C : Type} (f : A -> B -> C) (xs : list A) (ys : list B)
    (acc : list C) :
  forEach xs (fun x => forEach ys (fun y => push (f x y))) acc
  = (acc ++ flat_map (fun x => map (f x) ys) xs)%list.
Proof.
  revert acc.
  induction xs as [|x rest IH]; intros acc.
  - simpl. now rewrite app_nil_r.
  - change (forEach (x :: rest) (fun x0 => forEach ys (fun y => push (f x0 y))) acc)
      with (forEach rest (fun x0 => forEach ys (fun y => push (f x0 y)))
              (forEach ys (fun y => push (f x y)) acc)).
    rewrite IH, forEach_push_map. simpl. now rewrite <- app_assoc.
Qed.

Lemma generateColor_id (tone : Tone.t) (hue : Hue.t) :
  ColorEntry.id (generateColor tone hue) = pairId tone hue.
Proof. reflexivity. Qed.

(** C2.  [generateFullDeck] is the product of the catalogs in canonical
    order, tones outside and hues inside; it has 144 entries with
    pairwise different identifiers, every entry is [generateColor] of a
    catalog pair, and the entry of each catalog pair occurs exactly once. *)
Theorem generateFullDeck_complete (tone : Tone.t) (hue : Hue.t) :
  In tone TONES -> In hue HUES ->
  generateFullDeck = flat_map (fun t => map (generateColor t) HUES) TONES
  /\ List.length generateFullDeck = 144%nat
  /\ NoDup (map ColorEntry.id generateFullDeck)
  /\ Forall (fun e => exists t h, In t TONES /\ In h HUES /\ e = generateColor t h)
       generateFullDeck
  /\ In (generateColor tone hue) generateFullDeck
  /\ List.length
       (filter (fun e => ColorEntry.id e =? pairId tone hue) generateFullDeck) = 1%nat.
Proof.
  intros Ht Hh.
  assert (generateFullDeck = flat_map (fun t => map (generateColor t) HUES) TONES)
    as Hdeck.
  { unfold generateFullDeck. now rewrite forEach_product. }
  split; [exact Hdeck | ].
  split; [now vm_compute | ].
  split; [apply distinct_NoDup; now vm_compute | ].
  split.
  { rewrite Hdeck. apply Forall_forall. intros e He.
    apply in_flat_map in He. destruct He as [t [Ht' He]].
    apply in_map_iff in He. destruct He as [h [He Hh']].
    exists t, h. auto. }
  split.
  { rewrite Hdeck. apply in_flat_map. exists tone. split; [exact Ht | ].
    now apply in_map. }
  each_member Ht; each_member Hh; now vm_compute.
Qed.

Lemma generateFullDeck_complete_witness :
  List.length generateFullDeck = 144%nat
  /\ In (generateColor Sample.strong Sample.yellow) generateFullDeck
  /\ List.length
       (filter (fun e => ColorEntry.id e =? "s-8") generateFullDeck) = 1%nat.
Proof.
  assert (In Sample.strong TONES) as Ht by (vm_compute; tauto).
  assert (In Sample.yellow HUES) as Hh by (vm_compute; tauto).
  destruct (generateFullDeck_complete Sample.strong Sample.yellow Ht Hh)
    as [_ [Hlen [_ [_ [Hin Hone]]]]].
  split; [exact Hlen | ]. split; [exact Hin | exact Hone].
Defined.

(** ** QuizSession *)

Lemma slice_last_length {A : Type} (k : nat) (h : list A) :
  List.length (slice_last k h) = Nat.min (List.length h) k.
Proof. unfold slice_last. rewrite length_skipn. lia. Qed.

Lemma slice_last_short {A : Type} (k : nat) (h : list A) :
  (List.length h <= k)%nat -> slice_last k h = h.
Proof.
  intros H. unfold slice_last.
  replace (List.length h - k)%nat with O by lia. reflexivity.
Qed.

(** Appending after keeping the last [k] is keeping the last [k + 1] of
    the longer list. *)
Lemma slice_last_snoc {A : Type} (k : nat) (h : list A) (b : A) :
  (slice_last k h ++ [b])%list = slice_last (S k) (h ++ [b])%list.
Proof.
  unfold slice_last. rewrite length_app. simpl.
  replace (List.length h + 1 - S k)%nat with (List.length h - k)%nat by lia.
  rewrite skipn_app.
  replace (List.length h - k - List.length h)%nat with O by lia.
  reflexivity.
Qed.

Lemma slice_last_slice_last {A : Type} (k m : nat) (h : list A) :
  (k <= m)%nat -> slice_last k (slice_last m h) = slice_last k h.
Proof.
  intros H. unfold slice_last.
  rewrite length_skipn, skipn_skipn. f_equal. lia.
Qed.

(** What [handleGuess] does to each state cell. *)
Lemma handleGuess_cells (toneId : string) (st : QuizState) (card : ColorEntry.t) :
  nth_error (deck st) (currentCardIndex st) = Some card ->
  let isCorrect := toneId =? ColorEntry.toneId card in
  handleGuess toneId st =
    Some {| deck := deck st;
            currentCardIndex := currentCardIndex st;
            showAnswer := true;
            selectedOption := Some toneId;
            score := if isCorrect then (score st + 10)%Z else score st;
            streak := if isCorrect then (streak st + 1)%Z else 0%Z;
            bestStreak := if isCorrect then Z.max (bestStreak st) (streak st + 1)
                          else bestStreak st;
            history := (slice_last 4 (history st) ++ [isCorrect])%list |}.
Proof.
  intros Hcard. unfold handleGuess. rewrite Hcard. simpl.
  destruct (toneId =? ColorEntry.toneId card); reflexivity.
Qed.

(** C3.  In AwaitingAnswer, with a current card, [handleGuess] moves to
    ShowingResult.  A matching tone adds exactly 10 to the score and 1 to
    the streak and makes the best streak the larger of its old value and
    the new streak; any other tone leaves score and best streak alone and
    sets the streak to 0.  Either way the outcome becomes the last entry
    of the history, behind the entries kept from before. *)
Theorem handleGuess_scoring (toneId : string) (st : QuizState) (card : ColorEntry.t) :
  showAnswer st = false ->
  nth_error (deck st) (currentCardIndex st) = Some card ->
  exists st',
    handleGuess toneId st = Some st'
    /\ showAnswer st' = true
    /\ selectedOption st' = Some toneId
    /\ deck st' = deck st
    /\ currentCardIndex st' = currentCardIndex st
    /\ (toneId = ColorEntry.toneId card ->
          score st' = (score st + 10)%Z
          /\ streak st' = (streak st + 1)%Z
          /\ bestStreak st' = Z.max (bestStreak st) (streak st')
          /\ history st' = slice_last 5 (history st ++ [true])%list)
    /\ (toneId <> ColorEntry.toneId card ->
          score st' = score st
          /\ streak st' = 0%Z
          /\ bestStreak st' = bestStreak st
          /\ history st' = slice_last 5 (history st ++ [false])%list)
    /\ (exists b, history st' = (slice_last 4 (history st) ++ [b])%list
                  /\ (b = true <-> toneId = ColorEntry.toneId card))
    /\ ((List.length (history st) < 5)%nat ->
          exists b, history st' = (history st ++ [b])%list).
Proof.
  intros _ Hcard.
  eexists. split; [apply (handleGuess_cells toneId st card Hcard) | ].
  cbn [showAnswer selectedOption deck currentCardIndex score streak bestStreak history].
  repeat (split; [reflexivity | ]).
  split; [ | split; [ | split ] ].
  - intros ->. rewrite String.eqb_refl, slice_last_snoc. auto.
  - intros Hne. apply String.eqb_neq in Hne. rewrite Hne, slice_last_snoc. auto.
  - eexists. split; [reflexivity | ]. apply String.eqb_eq.
  - intros Hlen. eexists. rewrite slice_last_short by lia. reflexivity.
Qed.

Lemma handleGuess_scoring_witness :
  exists st',
    handleGuess "v" Sample.fresh = Some st'
    /\ showAnswer st' = true /\ score st' = 10%Z /\ streak st' = 1%Z
    /\ bestStreak st' = 1%Z /\ history st' = [true].
Proof.
  destruct (handleGuess_scoring "v" Sample.fresh
              (generateColor (Tone.mk "v" "Vivid" "01 Vivid" 100 50 "純粹、飽和、鮮豔")
                             (Hue.mk 2 "紅色 (Red)" 355))
              eq_refl eq_refl)
    as [st' [Hrun [Hshow [_ [_ [_ [Hright _]]]]]]].
  exists st'. split; [exact Hrun | ]. split; [exact Hshow | ].
  destruct (Hright eq_refl) as [Hscore [Hstreak [Hbest Hhist]]].
  rewrite Hstreak in Hbest.
  repeat split; assumption.
Defined.

Lemma nextCard_cells (st st' : QuizState) :
  nextCard st = Some st' ->
  deck st' = deck st
  /\ currentCardIndex st' = Nat.modulo (currentCardIndex st + 1) (List.length (deck st))
  /\ showAnswer st' = false
  /\ selectedOption st' = None
  /\ score st' = score st
  /\ streak st' = streak st
  /\ bestStreak st' = bestStreak st
  /\ history st' = history st.
Proof.
  unfold nextCard. destruct (List.length (deck st)) eqn:Hlen; [discriminate | ].
  intros H. injection H as <-. simpl. rewrite Hlen. repeat split; reflexivity.
Qed.

(** [handleGuess] looks at no state tag: called in ShowingResult with the
    right tone, it scores the card a second time. *)
Lemma handleGuess_rescores_in_ShowingResult :
  showAnswer Sample.answered = true
  /\ score Sample.answered = 10%Z
  /\ option_map score (handleGuess "v" Sample.answered) = Some 20%Z
  /\ option_map streak (handleGuess "v" Sample.answered) = Some 2%Z
  /\ option_map history (handleGuess "v" Sample.answered) = Some [true; true].
Proof. repeat split; reflexivity. Qed.

(** C5, as the code has it.  In ShowingResult the rendered card carries
    no answer button: whatever button is clicked there is not a guess,
    and the click leaves score, streak, best streak and history as they
    were. *)
Theorem ShowingResult_offers_no_guess
    (st st' : QuizState) (opts : array Tone.t) (buttons : list button) (b : button) :
  showAnswer st = true ->
  Flashcard_buttons opts (showAnswer st) = Some buttons ->
  In b buttons ->
  click b st = Some st' ->
  (forall toneId, b <> GuessButton toneId)
  /\ score st' = score st
  /\ streak st' = streak st
  /\ bestStreak st' = bestStreak st
  /\ history st' = history st.
Proof.
  intros Hshow Hbuttons Hin Hclick.
  rewrite Hshow in Hbuttons. simpl in Hbuttons. injection Hbuttons as <-.
  destruct Hin as [<- | [<- | []]]; simpl in Hclick.
  - injection Hclick as <-. split; [discriminate | auto].
  - apply nextCard_cells in Hclick.
    split; [discriminate | tauto].
Qed.

Lemma ShowingResult_offers_no_guess_witness :
  exists st',
    click NextButton Sample.answered = Some st'
    /\ score st' = 10%Z /\ streak st' = 1%Z /\ bestStreak st' = 1%Z
    /\ history st' = [true].
Proof.
  eexists. split; [reflexivity | ].
  apply (ShowingResult_offers_no_guess Sample.answered _ [] [AdviceButton; NextButton]
           NextButton eq_refl eq_refl (or_intror (or_introl eq_refl)) eq_refl).
Defined.

(** While the answer is hidden, each option is an answer button. *)
Lemma AwaitingAnswer_buttons (opts : array Tone.t) (ids : list string) :
  option_ids opts = Some ids ->
  Flashcard_buttons opts false = Some (map GuessButton ids).
Proof. intros H. unfold Flashcard_buttons. now rewrite H. Qed.

Lemma handleGuess_history (toneId : string) (st st' : QuizState) (b : bool) :
  outcome toneId st = Some b ->
  handleGuess toneId st = Some st' ->
  history st' = (slice_last 4 (history st) ++ [b])%list
  /\ deck st' = deck st /\ currentCardIndex st' = currentCardIndex st.
Proof.
  unfold outcome. intros Hb Hrun.
  destruct (nth_error (deck st) (currentCardIndex st)) as [card|] eqn:Hcard;
    [ | discriminate].
  rewrite (handleGuess_cells toneId st card Hcard) in Hrun.
  simpl in Hb. injection Hb as <-. injection Hrun as <-. auto.
Qed.

(** The history is the last five entries of the log, if it was so before. *)
Lemma run_history (calls : list call) :
  forall st log st' log',
    run calls st log = Some (st', log') ->
    history st = slice_last 5 log ->
    history st' = slice_last 5 log'
    /\ List.length log' = (List.length log + guesses calls)%nat.
Proof.
  induction calls as [|c rest IH]; intros st log st' log' Hrun Hinv.
  - simpl in Hrun. injection Hrun as <- <-. split; [exact Hinv | simpl; lia].
  - destruct c as [toneId | ]; simpl in Hrun.
    + destruct (outcome toneId st) as [b|] eqn:Hb; [ | discriminate].
      destruct (handleGuess toneId st) as [st1|] eqn:Hg; [ | discriminate].
      destruct (handleGuess_history _ _ _ _ Hb Hg) as [Hh _].
      apply IH in Hrun.
      * destruct Hrun as [H1 H2]. split; [exact H1 | ].
        rewrite H2, length_app. simpl. lia.
      * rewrite Hh, Hinv, slice_last_slice_last by lia. apply slice_last_snoc.
    + destruct (nextCard st) as [st1|] eqn:Hn; [ | discriminate].
      apply nextCard_cells in Hn.
      apply IH in Hrun; [exact Hrun | ].
      destruct Hn as [_ [_ [_ [_ [_ [_ [_ Hh]]]]]]]. now rewrite Hh.
Qed.

(** With a current card in the deck, every list of calls runs through. *)
Lemma run_total (calls : list call) :
  forall st log,
    (currentCardIndex st < List.length (deck st))%nat ->
    exists st' log', run calls st log = Some (st', log').
Proof.
  induction calls as [|c rest IH]; intros st log Hidx.
  - simpl. eauto.
  - destruct c as [toneId | ]; simpl.
    + destruct (nth_error (deck st) (currentCardIndex st)) as [card|] eqn:Hcard.
      * unfold outcome. rewrite Hcard. simpl.
        rewrite (handleGuess_cells toneId st card Hcard).
        apply IH. simpl. exact Hidx.
      * apply nth_error_None in Hcard. lia.
    + unfold nextCard.
      destruct (List.length (deck st)) as [|n] eqn:Hlen; [lia | ].
      apply IH. simpl. rewrite Hlen. apply Nat.mod_upper_bound. lia.
Qed.

(** C7.  From a fresh session on a non-empty deck, any list of calls
    runs through, and afterwards the history holds the outcomes of the
    last five answers, oldest first: all of them when fewer than five
    were given.  Its length is the smaller of 5 and the number of answers. *)
Theorem history_is_sliding_window (cards : list ColorEntry.t) (calls : list call) :
  cards <> [] ->
  exists st log,
    run calls (initialState cards) [] = Some (st, log)
    /\ List.length log = guesses calls
    /\ history st = slice_last 5 log
    /\ history st = skipn (guesses calls - Nat.min (guesses calls) 5) log
    /\ List.length (history st) = Nat.min (guesses calls) 5.
Proof.
  intros Hne.
  destruct (run_total calls (initialState cards) []) as [st [log Hrun]].
  { simpl. destruct cards; [congruence | simpl; lia]. }
  exists st, log. split; [exact Hrun | ].
  destruct (run_history calls _ _ _ _ Hrun eq_refl) as [Hh Hlen].
  simpl in Hlen.
  split; [exact Hlen | ]. split; [exact Hh | ].
  split.
  - rewrite Hh. unfold slice_last. f_equal. lia.
  - rewrite Hh, slice_last_length. lia.
Qed.

Lemma history_is_sliding_window_witness :
  exists st log,
    run Sample.sixAnswers (initialState generateFullDeck) [] = Some (st, log)
    /\ log = [true; false; true; true; false; true]
    /\ history st = [false; true; true; false; true].
Proof.
  assert (generateFullDeck <> []) as Hne.
  { intros H. apply (f_equal (@List.length _)) in H. vm_compute in H. discriminate. }
  destruct (history_is_sliding_window generateFullDeck Sample.sixAnswers Hne)
    as [st [log [Hrun [_ [Hh _]]]]].
  exists st, log. split; [exact Hrun | ].
  vm_compute in Hrun. injection Hrun as <- <-.
  split; reflexivity.
Defined.

(** ** The answer options *)

Lemma in_firstn {A : Type} (n : nat) (l : list A) (x : A) :
  In x (firstn n l) -> In x l.
Proof.
  intros H. rewrite <- (firstn_skipn n l). apply in_or_app. now left.
Qed.

Lemma filter_none {A : Type} (p : A -> bool) (l : list A) :
  (forall x, In x l -> p x = false) -> filter p l = [].
Proof.
  induction l as [|x rest IH]; intros H; simpl.
  - reflexivity.
  - rewrite (H x (or_introl eq_refl)). apply IH. intros y Hy. apply H. now right.
Qed.

Lemma filter_length_Permutation {A : Type} (p : A -> bool) (l l' : list A) :
  Permutation l l' -> List.length (filter p l) = List.length (filter p l').
Proof.
  induction 1 as [ | x l l' _ IH | x y l | l l' l'' _ IH1 _ IH2 ]; simpl.
  - reflexivity.
  - destruct (p x); simpl; congruence.
  - destruct (p x), (p y); reflexivity.
  - congruence.
Qed.

Section Options.

Variable sort : sort_function.
Hypothesis sort_permutes : permuting sort.

(** Sorting an array without holes gives an array without holes. *)
Lemma sort_defined {A : Type} (cmp : comparator A) (xs : list A) (g : RandomSource) :
  exists ys, fst (sort A cmp (map Some xs) g) = map Some ys /\ Permutation xs ys.
Proof.
  apply Permutation_map_inv, sort_permutes.
Qed.

(** Three of the other tones and the right one, in some order. *)
Lemma options_shape (card : ColorEntry.t) (g : RandomSource) (correct : Tone.t) :
  let others :=
    filter (fun t => negb (Tone.id t =? ColorEntry.toneId card)) TONES in
  find (fun t => Tone.id t =? ColorEntry.toneId card) TONES = Some correct ->
  (3 <= List.length others)%nat ->
  NoDup (map Tone.id (correct :: others)) ->
  exists d ts,
    fst (options sort card g) = map Some ts
    /\ Permutation (d ++ [correct])%list ts
    /\ List.length d = 3%nat
    /\ NoDup (map Tone.id (d ++ [correct])%list)
    /\ incl d others.
Proof.
  intros others Hfind Hlen Hnodup.
  unfold options. fold others. rewrite Hfind.
  destruct (sort_defined random_order others g) as [sh [Hsh Hperm]].
  destruct (sort _ random_order (map Some others) g) as [shuffled g1].
  simpl in Hsh. subst shuffled.
  rewrite firstn_map.
  change [Some correct] with (map Some [correct]).
  rewrite <- map_app.
  destruct (sort_defined random_order (firstn 3 sh ++ [correct])%list g1)
    as [ts [Hts Hperm']].
  exists (firstn 3 sh), ts.
  split; [exact Hts | ]. split; [exact Hperm' | ].
  split.
  { apply firstn_length_le. rewrite <- (Permutation_length Hperm). exact Hlen. }
  split.
  { assert (NoDup (map Tone.id (correct :: sh))) as Hnd.
    { apply (Permutation_NoDup (l := map Tone.id (correct :: others))); [ | exact Hnodup].
      apply Permutation_map. now constructor. }
    rewrite <- (firstn_skipn 3 sh) in Hnd.
    change (correct :: firstn 3 sh ++ skipn 3 sh)%list
      with ((correct :: firstn 3 sh) ++ skipn 3 sh)%list in Hnd.
    rewrite map_app in Hnd. apply NoDup_app_remove_r in Hnd.
    apply (Permutation_NoDup (l := map Tone.id (correct :: firstn 3 sh))); [ | exact Hnd].
    apply Permutation_map, Permutation_cons_append. }
  intros x Hx. apply in_firstn in Hx.
  apply (Permutation_in (l := sh)); [now apply Permutation_sym | exact Hx].
Qed.

(** The shuffled deck holds the 144 entries of the deck, each once. *)
Lemma shuffledDeck_Permutation (g : RandomSource) :
  exists cards,
    fst (shuffledDeck sort g) = map Some cards
    /\ Permutation generateFullDeck cards.
Proof. apply sort_defined. Qed.

End Options.

(** C4.  Whatever [Math.random] returns, provided the engine's sort only
    rearranges the array it is given: for a card whose tone is in the
    catalog, [options] is an array of exactly four tones of the catalog,
    pairwise different, exactly one of which carries the card's tone; the
    other three are different tones among the eleven remaining ones. *)
Theorem options_four_distinct
    (sort : sort_function) (card : ColorEntry.t) (g : RandomSource) :
  permuting sort ->
  In (ColorEntry.toneId card) (map Tone.id TONES) ->
  exists ts : list Tone.t,
    fst (options sort card g) = map Some ts
    /\ List.length ts = 4%nat
    /\ NoDup ts
    /\ NoDup (map Tone.id ts)
    /\ incl ts TONES
    /\ List.length (filter (fun t => Tone.id t =? ColorEntry.toneId card) ts) = 1%nat
    /\ exists correct distractors,
         Permutation (distractors ++ [correct])%list ts
         /\ Tone.id correct = ColorEntry.toneId card
         /\ List.length distractors = 3%nat
         /\ NoDup distractors
         /\ incl distractors
              (filter (fun t => negb (Tone.id t =? ColorEntry.toneId card)) TONES)
         /\ List.length
              (filter (fun t => negb (Tone.id t =? ColorEntry.toneId card)) TONES)
            = 11%nat.
Proof.
  intros Hsort Hin.
  assert (exists correct,
             find (fun t => Tone.id t =? ColorEntry.toneId card) TONES = Some correct
             /\ List.length
                  (filter (fun t => negb (Tone.id t =? ColorEntry.toneId card)) TONES)
                = 11%nat
             /\ NoDup (map Tone.id
                         (correct ::
                          filter (fun t => negb (Tone.id t =? ColorEntry.toneId card))
                                 TONES)))
    as [correct [Hfind [Hlen Hnodup]]].
  { simpl in Hin.
    repeat (destruct Hin as [Hin | Hin];
            [ rewrite <- Hin; eexists;
              split; [reflexivity | split; [reflexivity | ] ];
              apply distinct_NoDup; reflexivity | ]).
    contradiction. }
  destruct (options_shape sort Hsort card g correct Hfind) as [d [ts H]];
    [lia | exact Hnodup | ].
  destruct H as [Hts [Hperm [Hd [Hnd Hincl]]]].
  pose proof (find_some _ _ Hfind) as [HcIn Hcid].
  apply String.eqb_eq in Hcid.
  assert (NoDup (map Tone.id ts)) as Hnd'.
  { apply (Permutation_NoDup (l := map Tone.id (d ++ [correct])%list)); [ | exact Hnd].
    now apply Permutation_map. }
  exists ts.
  split; [exact Hts | ].
  split. { rewrite <- (Permutation_length Hperm), length_app, Hd. reflexivity. }
  split. { eapply NoDup_map_inv, Hnd'. }
  split; [exact Hnd' | ].
  split.
  { intros x Hx. apply (Permutation_in (l' := (d ++ [correct])%list)) in Hx;
      [ | now apply Permutation_sym].
    apply in_app_or in Hx. destruct Hx as [Hx | [<- | []]]; [ | exact HcIn].
    apply Hincl, filter_In in Hx. tauto. }
  split.
  { rewrite <- (filter_length_Permutation _ _ _ Hperm), filter_app, length_app.
    rewrite filter_none.
    - simpl. rewrite Hcid, String.eqb_refl. reflexivity.
    - intros x Hx. apply Hincl, filter_In in Hx. destruct Hx as [_ Hx].
      now apply negb_true_iff in Hx. }
  exists correct, d.
  split; [exact Hperm | ]. split; [exact Hcid | ]. split; [exact Hd | ].
  split.
  { rewrite map_app in Hnd. apply NoDup_app_remove_r in Hnd.
    eapply NoDup_map_inv, Hnd. }
  split; [exact Hincl | exact Hlen].
Qed.

(** Insertion sort is one such sort. *)
Lemma insert_Permutation {A : Type} (cmp : comparator A) (x : A) (sorted : list A) :
  forall g, Permutation (fst (InsertionSort.insert cmp x sorted g)) (x :: sorted).
Proof.
  induction sorted as [|y ys IH]; intros g; simpl.
  - apply Permutation_refl.
  - destruct (cmp x y g) as [v g1].
    destruct (Qle_bool v 0).
    + apply Permutation_refl.
    + specialize (IH g1).
      destruct (InsertionSort.insert cmp x ys g1) as [r g2]. simpl in *.
      apply Permutation_trans with (y :: x :: ys).
      * now constructor.
      * constructor.
  Qed.

Lemma isort_Permutation {A : Type} (cmp : comparator A) (xs : list A) :
  forall g, Permutation (fst (InsertionSort.isort cmp xs g)) xs.
Proof.
  induction xs as [|x rest IH]; intros g; simpl.
  - constructor.
  - specialize (IH g).
    destruct (InsertionSort.isort cmp rest g) as [sorted g1]. simpl in IH.
    apply Permutation_trans with (x :: sorted).
    + apply insert_Permutation.
    + now constructor.
Qed.

Lemma defined_undefineds_Permutation {A : Type} (xs : array A) :
  Permutation (map Some (InsertionSort.defined xs) ++ InsertionSort.undefineds xs)%list xs.
Proof.
  induction xs as [|[x|] rest IH]; simpl.
  - constructor.
  - now constructor.
  - apply Permutation_sym, Permutation_cons_app. now apply Permutation_sym.
Qed.

Lemma InsertionSort_permuting : permuting InsertionSort.sort.
Proof.
  intros A cmp xs g. unfold InsertionSort.sort.
  pose proof (isort_Permutation cmp (InsertionSort.defined xs) g) as H.
  destruct (InsertionSort.isort cmp (InsertionSort.defined xs) g) as [sorted g1].
  simpl in *.
  apply Permutation_trans with
    (map Some (InsertionSort.defined xs) ++ InsertionSort.undefineds xs)%list.
  - apply Permutation_app_tail, Permutation_map, H.
  - apply defined_undefineds_Permutation.
Qed.

Lemma options_four_distinct_witness :
  exists ts,
    fst (options InsertionSort.sort Sample.deepRed Sample.rotating) = map Some ts
    /\ map Tone.id ts = ["b"; "lt"; "v"; "dp"].
Proof.
  assert (In (ColorEntry.toneId Sample.deepRed) (map Tone.id TONES)) as Hin
    by (vm_compute; tauto).
  destruct (options_four_distinct InsertionSort.sort Sample.deepRed Sample.rotating
              InsertionSort_permuting Hin) as [ts [Hts _]].
  exists ts. split; [exact Hts | ].
  vm_compute in Hts.
  destruct ts as [|t1 [|t2 [|t3 [|t4 [|t5 rest]]]]]; try discriminate.
  injection Hts as <- <- <- <-. reflexivity.
Defined.

(** ** SettingsResolver *)

Lemma or_string_pick (buildTime : option string) (fallback : string) :
  Js.or_string buildTime fallback = Resolver.pick None buildTime fallback.
Proof. destruct buildTime as [[|c r]|]; reflexivity. Qed.

Lemma lookup_In (k : string) (members : list (string * Js.json)) (v : Js.json) :
  Js.lookup k members = Some v -> exists k', In (k', v) members.
Proof.
  induction members as [|[k' v'] rest IH]; simpl; [discriminate | ].
  destruct (Js.lookup k rest) as [w|].
  - intros H. injection H as ->. destruct (IH eq_refl) as [k'' Hin]. eauto.
  - destruct (k =? k'); [ | discriminate].
    intros H. injection H as ->. eauto.
Qed.

(** One field of a record of strings: [parsed.k || envValue]. *)
Lemma or_value_pick (k : string) (members : list (string * Js.json))
    (buildTime : option string) (fallback : string) :
  Resolver.string_record members ->
  Js.or_value (Js.lookup k members) (Js.or_string buildTime fallback)
  = Js.JStr (Resolver.pick (Resolver.field k (Some members)) buildTime fallback).
Proof.
  intros Hrec. unfold Resolver.field.
  destruct (Js.lookup k members) as [v|] eqn:Hk; simpl.
  - destruct (lookup_In _ _ _ Hk) as [k' Hin].
    unfold Resolver.string_record in Hrec. rewrite Forall_forall in Hrec.
    destruct (Hrec _ Hin) as [s Hs]. simpl in Hs. subst v.
    destruct s as [|c r]; simpl; [ | reflexivity].
    now rewrite or_string_pick.
  - now rewrite or_string_pick.
Qed.

Lemma parse_empty : JSON.parse EmptyString = Js.Throw (Js.SyntaxError EmptyString).
Proof. reflexivity. Qed.

(** C6.  With a persisted record of string fields (or none) and any
    build-time configuration, [getSettings] returns, field by field, the
    persisted string when it is there and not empty, else the build-time
    string when it is there and not empty, else the fallback.  So a
    persisted model [gpt-4o-mini] is the resolved model whatever the other
    tiers hold, and an empty persisted model under a build-time model
    [gpt-4o] resolves to [gpt-4o]. *)
Theorem getSettings_resolves_per_field
    (env : Env) (store : Storage) (record : option (list (string * Js.json))) :
  Resolver.stored store record ->
  App.getSettings env store
  = Js.Normal (Resolver.resolve env record
                 "https://models.inference.ai.azure.com" "gpt-4o")
  /\ (Resolver.field "model" record = Some "gpt-4o-mini" ->
      exists settings,
        App.getSettings env store = Js.Normal settings
        /\ model settings = Js.JStr "gpt-4o-mini")
  /\ (Resolver.field "model" record = Some EmptyString ->
      VITE_MODEL env = Some "gpt-4o" ->
      exists settings,
        App.getSettings env store = Js.Normal settings
        /\ model settings = Js.JStr "gpt-4o").
Proof.
  intros Hstored.
  assert (App.getSettings env store
          = Js.Normal (Resolver.resolve env record
                         "https://models.inference.ai.azure.com" "gpt-4o")) as Hres.
  { unfold App.getSettings, Resolver.resolve.
    destruct record as [members|]; simpl in Hstored.
    - destruct Hstored as [text [Hget [Hparse Hrec]]].
      rewrite Hget.
      destruct text as [|c r]; [rewrite parse_empty in Hparse; discriminate | ].
      cbn [Js.nonempty]. rewrite Hparse. cbn [Js.bind Js.get].
      now rewrite !or_value_pick.
    - destruct Hstored as [Hget | Hget]; rewrite Hget; cbn [Js.nonempty];
        now rewrite !or_string_pick. }
  split; [exact Hres | ].
  split.
  - intros Hmodel. eexists. split; [exact Hres | ].
    unfold Resolver.resolve. simpl. now rewrite Hmodel.
  - intros Hmodel Henv. eexists. split; [exact Hres | ].
    unfold Resolver.resolve. simpl. now rewrite Hmodel, Henv.
Qed.

Lemma getSettings_resolves_per_field_witness :
  App.getSettings Sample.fullEnv (Sample.storing Sample.miniModelText)
  = Js.Normal {| baseUrl := Js.JStr "https://api.openai.com/v1/";
                 apiKey := Js.JStr "sk-build";
                 model := Js.JStr "gpt-4o-mini" |}
  /\ App.getSettings Sample.gpt4oEnv (Sample.storing Sample.blankModelText)
     = Js.Normal {| baseUrl := Js.JStr "https://models.inference.ai.azure.com";
                    apiKey := Js.JStr EmptyString;
                    model := Js.JStr "gpt-4o" |}
  /\ App.getSettings Sample.gpt4oEnv []
     = Js.Normal {| baseUrl := Js.JStr "https://models.inference.ai.azure.com";
                    apiKey := Js.JStr EmptyString;
                    model := Js.JStr "gpt-4o" |}.
Proof.
  split; [ | split].
  - refine (proj1 (getSettings_resolves_per_field Sample.fullEnv
                     (Sample.storing Sample.miniModelText)
                     (Some Sample.miniModelRecord) _)).
    exists Sample.miniModelText.
    split; [reflexivity | ]. split; [reflexivity | ].
    repeat constructor; eexists; reflexivity.
  - refine (proj1 (getSettings_resolves_per_field Sample.gpt4oEnv
                     (Sample.storing Sample.blankModelText)
                     (Some Sample.blankModelRecord) _)).
    exists Sample.blankModelText.
    split; [reflexivity | ]. split; [reflexivity | ].
    repeat constructor; eexists; reflexivity.
  - refine (proj1 (getSettings_resolves_per_field Sample.gpt4oEnv [] None _)).
    left. reflexivity.
Defined.

(** A string of white space is not empty: it is kept as the override. *)
Lemma getSettings_keeps_white_space :
  App.getSettings Sample.gpt4oEnv
    (Sample.storing ("{" ++ Sample.member "model" " " ++ "}"))
  = Js.Normal {| baseUrl := Js.JStr "https://models.inference.ai.azure.com";
                 apiKey := Js.JStr EmptyString;
                 model := Js.JStr " " |}.
Proof. reflexivity. Qed.

(** Without a stored blob, or with an empty one, [getSettings] returns;
    the key has no fallback but the empty string. *)
Lemma getSettings_without_record (env : Env) (store : Storage) :
  present (getItem store "pccs_app_settings") = false ->
  App.getSettings env store
  = Js.Normal {| baseUrl := Js.JStr (Js.or_string (VITE_BASE_URL env)
                                       "https://models.inference.ai.azure.com");
                 apiKey := Js.JStr (Js.or_string (VITE_API_KEY env) EmptyString);
                 model := Js.JStr (Js.or_string (VITE_MODEL env) "gpt-4o") |}.
Proof.
  unfold App.getSettings, present.
  destruct (getItem store "pccs_app_settings") as [[|c r]|]; simpl;
    intros H; try discriminate; reflexivity.
Qed.

(** C8, at the failing input.  A stored blob that is not JSON makes
    [getSettings] throw the [SyntaxError] of [JSON.parse] (the text is
    malformed, the parser did not run out of budget), and the stored text
    [null] makes it throw a [TypeError]: no settings are returned. *)
Theorem getSettings_throws_on_malformed_blob (env : Env) :
  App.getSettings env (Sample.storing "not json")
  = Js.Throw (Js.SyntaxError EmptyString)
  /\ JSON.value (JSON.budget "not json") "not json" = JSON.Malformed
  /\ App.getSettings env (Sample.storing "null")
     = Js.Throw (Js.TypeError "Cannot read properties of null (reading 'baseUrl')")
  /\ Seasonal.getSettings env (Sample.storing "not json")
     = Js.Throw (Js.SyntaxError EmptyString).
Proof. repeat split; reflexivity. Qed.

(** C10, at the failing input.  With nothing configured at build time
    and nothing stored, the helper of [App.jsx] falls back to the Azure
    endpoint and [gpt-4o], the one of [SeasonalColorAnalysis.jsx] to the
    Gemini endpoint and [gemini-1.5-flash]. *)
Theorem getSettings_copies_differ_on_fallback :
  App.getSettings Sample.noEnv []
  = Js.Normal {| baseUrl := Js.JStr "https://models.inference.ai.azure.com";
                 apiKey := Js.JStr EmptyString;
                 model := Js.JStr "gpt-4o" |}
  /\ Seasonal.getSettings Sample.noEnv []
     = Js.Normal {| baseUrl :=
                      Js.JStr "https://generativelanguage.googleapis.com/v1beta/openai/";
                    apiKey := Js.JStr EmptyString;
                    model := Js.JStr "gemini-1.5-flash" |}
  /\ App.getSettings Sample.noEnv [] <> Seasonal.getSettings Sample.noEnv [].
Proof.
  split; [reflexivity | ]. split; [reflexivity | ].
  intros H. vm_compute in H. discriminate.
Qed.

(** Apart from the two fallback constants the helpers are the same:
    when the build-time configuration names an endpoint and a model, they
    return the same thing on every storage. *)
Lemma getSettings_copies_agree_under_build_time_values (env : Env) (store : Storage) :
  Js.truthy_opt (option_map Js.JStr (VITE_BASE_URL env)) = true ->
  Js.truthy_opt (option_map Js.JStr (VITE_MODEL env)) = true ->
  App.getSettings env store = Seasonal.getSettings env store.
Proof.
  unfold App.getSettings, Seasonal.getSettings.
  destruct env as [k [[|c r]|] [[|c' r']|]]; simpl; intros H1 H2;
    try discriminate; reflexivity.
Qed.

(** The two helpers fail on the same storages, with the same error, and
    where they return they return the same key. *)
Lemma getSettings_copies_agree_on_apiKey (env : Env) (store : Storage) :
  match App.getSettings env store, Seasonal.getSettings env store with
  | Js.Normal a, Js.Normal b => apiKey a = apiKey b
  | Js.Throw e, Js.Throw e' => e = e'
  | _, _ => False
  end.
Proof.
  unfold App.getSettings, Seasonal.getSettings.
  destruct (getItem store "pccs_app_settings") as [text|]; [ | reflexivity].
  destruct (Js.nonempty text); [ | reflexivity].
  destruct (JSON.parse text) as [parsed|e]; simpl; [ | reflexivity].
  destruct (Js.get parsed "baseUrl") as [b|e]; simpl; [ | reflexivity].
  destruct (Js.get parsed "apiKey") as [k|e]; simpl; [ | reflexivity].
  destruct (Js.get parsed "model") as [m|e]; simpl; reflexivity.
Qed.

(** ** The advisory call *)

(** The resolved key is a non-empty value or the empty string. *)
Lemma or_value_falsy (v : option Js.json) (s : string) :
  Js.truthy (Js.or_value v s) = false -> Js.or_value v s = Js.JStr EmptyString.
Proof.
  unfold Js.or_value.
  destruct v as [j|].
  - destruct (Js.truthy j) eqn:Hj; simpl; [congruence | ].
    destruct s; [reflexivity | discriminate].
  - destruct s; [reflexivity | discriminate].
Qed.

Lemma resolved_key_falsy (env : Env) (store : Storage) (settings : Settings) :
  App.getSettings env store = Js.Normal settings ->
  Js.truthy (apiKey settings) = false ->
  apiKey settings = Js.JStr EmptyString.
Proof.
  unfold App.getSettings.
  destruct (getItem store "pccs_app_settings") as [text|].
  - destruct (Js.nonempty text).
    + destruct (JSON.parse text) as [parsed|e]; simpl; [ | discriminate].
      destruct (Js.get parsed "baseUrl") as [b|e]; simpl; [ | discriminate].
      destruct (Js.get parsed "apiKey") as [k|e]; simpl; [ | discriminate].
      destruct (Js.get parsed "model") as [m|e]; simpl; [ | discriminate].
      intros H. injection H as <-. simpl. apply or_value_falsy.
    + intros H. injection H as <-. simpl.
      destruct (Js.or_string (VITE_API_KEY env) EmptyString);
        [reflexivity | discriminate].
  - intros H. injection H as <-. simpl.
    destruct (Js.or_string (VITE_API_KEY env) EmptyString);
      [reflexivity | discriminate].
Qed.



(** With a key, one request goes out, to the endpoint with
    [/chat/completions] after the base URL less its final slash. *)
Lemma callOpenAI_with_key_fetches (network : Net.Request -> Js.error + Net.Response) :
  Net.requests network
    (callOpenAI (fun _ => "[object Object]") Sample.fullEnv [] "Which tone is calm?" None)
  = 1%nat
  /\ exists k,
       callOpenAI (fun _ => "[object Object]") Sample.fullEnv [] "Which tone is calm?" None
       = Net.Fetch
           {| Net.url := "https://api.openai.com/v1/chat/completions";
              Net.method := "POST";
              Net.headers := [ ("Content-Type", "application/json");
                               ("Authorization", "Bearer sk-build") ];
              Net.body :=
                {| Net.payload_model := Js.JStr "gpt-4.1";
                   Net.messages :=
                     [ {| Net.role := "system"; Net.content := EmptyString |};
                       {| Net.role := "user"; Net.content := "Which tone is calm?" |} ];
                   Net.temperature := 7 # 10 |} |} k.
Proof.
  split.
  - simpl. destruct (afterFetch _ _); reflexivity.
  - eexists. reflexivity.
Qed.
